(** * BililiveRecorder-Player: overlay scheduler, resume history, clock resync

    A shallow embedding of the algorithmic core of the [Player] component
    (and of the data model of [types.ts]) together with the properties the
    specification states about it.

    Conventions of the model.
    - A JavaScript [number] that carries a time, a duration, a speed or a
      position is an exact rational ([Q]); every constant of the source
      (16, 9, 0.25, 0.75, 0.5, 5, 100) is exactly representable.  What
      is proved about a quotient is proved under [0 < speed], where the
      divisor is positive.
    - A [number] that is an integer by construction (packed colour, segment
      index, [Date.now()] milliseconds, list length) is a [Z].
    - A [string] is a [string]; [.length] is the number of its code units.
    - The object stored under the history key of [localStorage] is a finite
      map from session id to record; [None] is the absent key. *)

From Stdlib Require Import Ascii String QArith Qabs Qround Lqa Permutation Sorted.
From stdpp Require Import gmap strings pretty list sorting fin_maps.

(** ** The JavaScript built-ins the source relies on *)

Module JS.

(** [a > b] on numbers. *)
Definition gt (a b : Q) : bool := negb (Qle_bool a b).

(** [Array.prototype.sort(compareFn)].  The sort is stable and puts [a]
    before [b] when [compareFn(a, b) < 0]; for a consistent comparator
    its result is the one of this stable insertion sort. *)
Section Sort.
Context {A : Type} (compareFn : A -> A -> Z).

Fixpoint sort_insert (x : A) (l : list A) : list A :=
  match l with
  | [] => [x]
  | y :: l' =>
      if (0 <? compareFn x y)%Z then y :: sort_insert x l' else x :: l
  end.

Definition sort (l : list A) : list A := foldr sort_insert [] l.
End Sort.

(** One hexadecimal digit, lower case. *)
Definition hexDigit (d : Z) : ascii :=
  match d with
  | 0%Z => "0" | 1%Z => "1" | 2%Z => "2" | 3%Z => "3"
  | 4%Z => "4" | 5%Z => "5" | 6%Z => "6" | 7%Z => "7"
  | 8%Z => "8" | 9%Z => "9" | 10%Z => "a" | 11%Z => "b"
  | 12%Z => "c" | 13%Z => "d" | 14%Z => "e" | _ => "f"
  end%char.

(** Digits of a non-negative integer, most significant first, pushed in
    front of [acc]; [fuel] bounds the number of digits. *)
Fixpoint toHexAcc (fuel : nat) (n : Z) (acc : string) : string :=
  match fuel with
  | O => acc
  | S fuel' =>
      let acc' := String (hexDigit (n mod 16)) acc in
      if (n <? 16)%Z then acc' else toHexAcc fuel' (n / 16) acc'
  end.

(** [Number.prototype.toString(16)] on an integer: no leading zero,
    ["0"] for zero, a minus sign for a negative number. *)
Definition toString16 (n : Z) : string :=
  if (n <? 0)%Z
  then String "-"%char (toHexAcc (S (Z.to_nat (Z.log2 (- n)))) (- n) EmptyString)
  else toHexAcc (S (Z.to_nat (Z.log2 n))) n EmptyString.

Fixpoint repeatChar (n : nat) (c : ascii) : string :=
  match n with
  | O => EmptyString
  | S n' => String c (repeatChar n' c)
  end.

(** [String.prototype.padStart(targetLength, c)] for a one-character
    pad string. *)
Definition padStart (targetLength : nat) (c : ascii) (s : string) : string :=
  String.append (repeatChar (targetLength - String.length s) c) s.

End JS.

(** ** Data model ([types.ts]) *)

Module Danmaku.

Record DanmakuItem := {
  time : Q;                         (* relative time in seconds *)
  type : Z;
  size : Z;
  color : Z;
  timestamp : Z;
  pool : Z;
  uid : string;
  rowId : string;
  content : string;
  senderName : option string;
  medalName : option string;
  medalLevel : option Z;
  medalColorBorder : option string;
  trackIndex : Z;
  emots : option (gmap string string);
  stickerUrl : option string
}.

(** An item of [activeOverlayDanmaku]: [{ ...d, actualDuration }]. *)
Record Scheduled := {
  item : DanmakuItem;
  actualDuration : Q
}.

End Danmaku.

(** ** The overlay scheduler ([activeOverlayDanmaku] and the overlay render) *)

Module Overlay.
Import Danmaku.
Local Open Scope Q_scope.

Record Settings := {
  show : bool;
  opacity : Q;
  size : Q;
  speed : Q;
  playbackRate : Q;
  longPressRate : Q
}.

Definition BASE_DURATION : Q := 16.

(** [d.content.length || 1] *)
Definition len (d : DanmakuItem) : Z :=
  let l := Z.of_nat (String.length (content d)) in
  if (l =? 0)%Z then 1%Z else l.

(** [Math.min(Math.max(len, 1), 10)] *)
Definition clampedLen (len : Z) : Z := Z.min (Z.max len 1) 10.

(** [(clampedLen - 1) / 9] *)
Definition ratio (len : Z) : Q := inject_Z (clampedLen len - 1) / 9.

(** [1.0 - (ratio * 0.25)] *)
Definition intrinsicFactor (len : Z) : Q := 1 - ratio len * 0.25.

(** [BASE_DURATION / (danmakuSettings.speed * intrinsicFactor)] *)
Definition duration (speed : Q) (len : Z) : Q :=
  BASE_DURATION / (speed * intrinsicFactor len).

(** [BASE_DURATION / (danmakuSettings.speed * 0.75)] *)
Definition maxDuration (s : Settings) : Q :=
  BASE_DURATION / (speed s * 0.75).

(** First [filter]: the conservative window. *)
Definition pass1 (s : Settings) (smoothTime : Q) (d : DanmakuItem) : bool :=
  Qle_bool (smoothTime - maxDuration s) (time d)
  && Qle_bool (time d) (smoothTime + 0.5).

(** The [map] step: attach the exact duration. *)
Definition withDuration (s : Settings) (d : DanmakuItem) : Scheduled :=
  {| item := d; actualDuration := duration (speed s) (len d) |}.

(** Second [filter]: the precise window. *)
Definition pass2 (smoothTime : Q) (d : Scheduled) : bool :=
  Qle_bool (smoothTime - actualDuration d) (time (item d))
  && Qle_bool (time (item d)) (smoothTime + 0.5).

Definition activeOverlayDanmaku
    (danmakuSettings : Settings) (danmakuData : list DanmakuItem)
    (smoothTime : Q) : list Scheduled :=
  if negb (show danmakuSettings) then []
  else
    List.filter (pass2 smoothTime)
      (List.map (withDuration danmakuSettings)
         (List.filter (pass1 danmakuSettings smoothTime) danmakuData)).

(** The overlay render, per item: [timeAlive / duration]. *)
Definition progress (smoothTime : Q) (d : Scheduled) : Q :=
  let timeAlive := smoothTime - time (item d) in
  timeAlive / actualDuration d.

Definition startX : Q := 100.
Definition endX : Q := -100.

(** [startX - (progress * (startX - endX))] *)
Definition currentX (smoothTime : Q) (d : Scheduled) : Q :=
  startX - (progress smoothTime d * (startX - endX)).

(** [(d.trackIndex % 16) * 6], the [top] percentage; [%] truncates
    towards zero. *)
Definition top (d : Scheduled) : Z := (Z.rem (trackIndex (item d)) 16 * 6)%Z.

(** [d.color === 16777215 ? '#ffffff'
      : `#${d.color.toString(16).padStart(6, '0')}`] *)
Definition colorHex (color : Z) : string :=
  if (color =? 16777215)%Z then "#ffffff"%string
  else String "#"%char (JS.padStart 6 "0"%char (JS.toString16 color)).

(** The specification's wording of the colour string: the six
    hexadecimal digits of the packed integer, zero-padded. *)
Definition hex6 (c : Z) : string :=
  String (JS.hexDigit (c / 1048576 mod 16))
    (String (JS.hexDigit (c / 65536 mod 16))
      (String (JS.hexDigit (c / 4096 mod 16))
        (String (JS.hexDigit (c / 256 mod 16))
          (String (JS.hexDigit (c / 16 mod 16))
            (String (JS.hexDigit (c mod 16)) EmptyString))))).

(** The specification's wording of the visibility filter: the exact
    window [currentTime - D, currentTime + 0.5] applied directly to the
    whole list, with [D = 16 / (speed * intrinsicFactor)]. *)
Definition exactWindow (s : Settings) (currentTime : Q) (d : DanmakuItem) : bool :=
  Qle_bool (currentTime - 16 / (speed s * intrinsicFactor (len d))) (time d)
  && Qle_bool (time d) (currentTime + 0.5).

Definition exactFilter (s : Settings) (items : list DanmakuItem)
    (currentTime : Q) : list Scheduled :=
  List.map (withDuration s) (List.filter (exactWindow s currentTime) items).

End Overlay.

(** ** The resume history ([saveHistory] and the history-load effect) *)

Module History.

(** A value of the history object: [{ time, segmentIndex, ts }].  A
    record read back from storage may lack [segmentIndex]; when present
    it is the integer [saveHistory] wrote. *)
Record PlaybackHistoryRecord := {
  time : Q;
  segmentIndex : option Z;
  ts : Z
}.

Abbreviation HistoryObject := (gmap string PlaybackHistoryRecord).

(** [history[k].ts] *)
Definition ts_of (history : HistoryObject) (k : string) : Z :=
  match history !! k with
  | Some r => ts r
  | None => 0%Z
  end.

(** [keysToRemove.forEach(k => delete history[k])] *)
Definition deleteAll (history : HistoryObject) (keysToRemove : list string)
    : HistoryObject :=
  foldl (fun h k => delete k h) history keysToRemove.

(** [raw ? JSON.parse(raw) : {}] *)
Definition parsed (raw : option HistoryObject) : HistoryObject :=
  match raw with
  | Some h => h
  | None => ∅
  end.

(** The first half of [saveHistory]: read the stored value and write
    [history[session.id] = { time, segmentIndex: segmentIdx, ts: Date.now() }]. *)
Definition upsert (session_id : string) (now : Z) (time : Q)
    (segmentIdx : Z) (raw : option HistoryObject) : HistoryObject :=
  let history := parsed raw in
  <[session_id := {| time := time;
                     segmentIndex := Some segmentIdx;
                     ts := now |}]> history.

Section Save.
(** [Object.keys]: the own keys of the object in the engine's
    enumeration order, which the model leaves open. *)
Variable Object_keys : HistoryObject -> list string.

(** The cleanup block of [saveHistory]. *)
Definition cleanup (history : HistoryObject) : HistoryObject :=
  let keys := Object_keys history in
  if (100 <? Z.of_nat (length keys))%Z then
    let sortedKeys :=
      JS.sort (fun a b => (ts_of history b - ts_of history a)%Z) keys in
    let keysToRemove := drop 100 sortedKeys in
    deleteAll history keysToRemove
  else history.

(** [saveHistory(time, segmentIdx)] for the session [session_id], run
    when [Date.now()] is [now], on the stored value [raw]; the result
    is the value written back. *)
Definition saveHistory (session_id : string) (now : Z)
    (time : Q) (segmentIdx : Z) (raw : option HistoryObject)
    : option HistoryObject :=
  Some (cleanup (upsert session_id now time segmentIdx raw)).

(** One call of [saveHistory]: session, clock, position. *)
Record Save := {
  s_session : string;
  s_now : Z;
  s_time : Q;
  s_segmentIdx : Z
}.

Definition save (raw : option HistoryObject) (c : Save) : option HistoryObject :=
  saveHistory (s_session c) (s_now c) (s_time c) (s_segmentIdx c) raw.

(** A sequence of calls, oldest first. *)
Definition saves (raw : option HistoryObject) (cs : list Save)
    : option HistoryObject :=
  foldl save raw cs.
End Save.

(** The record a call writes. *)
Definition recordOf (c : Save) : PlaybackHistoryRecord :=
  {| time := s_time c; segmentIndex := Some (s_segmentIdx c); ts := s_now c |}.

(** What the calls [cs] would leave in an empty store if nothing were
    ever removed. *)
Definition allSaved (cs : list Save) : HistoryObject :=
  foldl (fun m c => <[s_session c := recordOf c]> m) ∅ cs.

(** The stored sessions other than [session_id] whose [ts] is at least
    [now], and those whose [ts] is greater than [now]. *)
Definition savedSince (session_id : string) (now : Z)
    (raw : option HistoryObject) : HistoryObject :=
  filter (fun kr => kr.1 <> session_id /\ (now <= ts kr.2)%Z)
         (parsed raw).

Definition savedAfter (session_id : string) (now : Z)
    (raw : option HistoryObject) : HistoryObject :=
  filter (fun kr => kr.1 <> session_id /\ (now < ts kr.2)%Z)
         (parsed raw).

(** [history[session.id]] on the stored value. *)
Definition load (session_id : string) (raw : option HistoryObject)
    : option PlaybackHistoryRecord :=
  match raw with
  | Some history => history !! session_id
  | None => None
  end.

(** The number of stored sessions. *)
Definition tracked (raw : option HistoryObject) : nat :=
  match raw with
  | Some history => size history
  | None => 0
  end.

End History.

(** ** The player component ([Player]) *)

Module Player.
Import Danmaku.
Local Open Scope Q_scope.

Section Component.
(** [File] handles and [parseDanmakuXml] belong to [utils/parser] and
    to the browser; the parser either rejects the file or returns its
    items. *)
Variable File : Type.
Variable parseDanmakuXml : File -> string + list DanmakuItem.

(** The fields of [StreamSegment] and [StreamSession] the component
    reads. *)
Record StreamSegment := {
  file : File;
  danmakuFile : option File
}.

Record StreamSession := {
  id : string;
  segments : list StreamSegment
}.

(** The state of a mounted player: the [useState] cells, the
    [initialSeekTimeRef] ref and the history entry of [localStorage]. *)
Record State := {
  isPlaying : bool;
  currentTime : Q;
  smoothTime : Q;
  currentSegmentIndex : Z;
  errorMsg : option string;
  danmakuData : list DanmakuItem;
  initialSeekTimeRef : option Q;
  storedHistory : option History.HistoryObject
}.

(** The state of the first render. *)
Definition initialState (raw : option History.HistoryObject) : State :=
  {| isPlaying := false; currentTime := 0; smoothTime := 0;
     currentSegmentIndex := 0; errorMsg := None; danmakuData := [];
     initialSeekTimeRef := None; storedHistory := raw |}.

Definition setCurrentTime (t : Q) (st : State) : State :=
  {| isPlaying := isPlaying st; currentTime := t;
     smoothTime := smoothTime st;
     currentSegmentIndex := currentSegmentIndex st;
     errorMsg := errorMsg st; danmakuData := danmakuData st;
     initialSeekTimeRef := initialSeekTimeRef st;
     storedHistory := storedHistory st |}.

Definition setSmoothTime (t : Q) (st : State) : State :=
  {| isPlaying := isPlaying st; currentTime := currentTime st;
     smoothTime := t;
     currentSegmentIndex := currentSegmentIndex st;
     errorMsg := errorMsg st; danmakuData := danmakuData st;
     initialSeekTimeRef := initialSeekTimeRef st;
     storedHistory := storedHistory st |}.

Definition setDanmakuData (items : list DanmakuItem) (st : State) : State :=
  {| isPlaying := isPlaying st; currentTime := currentTime st;
     smoothTime := smoothTime st;
     currentSegmentIndex := currentSegmentIndex st;
     errorMsg := errorMsg st; danmakuData := items;
     initialSeekTimeRef := initialSeekTimeRef st;
     storedHistory := storedHistory st |}.

Definition setStoredHistory (raw : option History.HistoryObject)
    (st : State) : State :=
  {| isPlaying := isPlaying st; currentTime := currentTime st;
     smoothTime := smoothTime st;
     currentSegmentIndex := currentSegmentIndex st;
     errorMsg := errorMsg st; danmakuData := danmakuData st;
     initialSeekTimeRef := initialSeekTimeRef st;
     storedHistory := raw |}.

(** [setCurrentSegmentIndex(record.segmentIndex);
     initialSeekTimeRef.current = record.time] *)
Definition resumeAt (idx : Z) (t : Q) (st : State) : State :=
  {| isPlaying := isPlaying st; currentTime := currentTime st;
     smoothTime := smoothTime st;
     currentSegmentIndex := idx;
     errorMsg := errorMsg st; danmakuData := danmakuData st;
     initialSeekTimeRef := Some t;
     storedHistory := storedHistory st |}.

(** The history-load effect, run when the session is opened:
    [if (record && record.time > 5 && record.segmentIndex !== undefined)]
    and, inside, the range test on [record.segmentIndex]. *)
Definition loadHistory (session : StreamSession) (st : State) : State :=
  match storedHistory st with
  | Some history =>
      match history !! id session with
      | Some record =>
          if JS.gt (History.time record) 5 then
            match History.segmentIndex record with
            | Some segmentIndex =>
                if (0 <=? segmentIndex)%Z
                   && (segmentIndex <? Z.of_nat (length (segments session)))%Z
                then resumeAt segmentIndex (History.time record) st
                else st
            | None => st
            end
          else st
      | None => st
      end
  | None => st
  end.

(** [initialSeekTimeRef.current !== null ? initialSeekTimeRef.current : 0] *)
Definition startTime (st : State) : Q :=
  match initialSeekTimeRef st with
  | Some t => t
  | None => 0
  end.

(** [onPlayerReady]: the seek applied to the video element, if any,
    and the cleared ref. *)
Definition onPlayerReady (st : State) : option Q * State :=
  match initialSeekTimeRef st with
  | Some t =>
      (Some t,
       {| isPlaying := isPlaying st; currentTime := currentTime st;
          smoothTime := smoothTime st;
          currentSegmentIndex := currentSegmentIndex st;
          errorMsg := errorMsg st; danmakuData := danmakuData st;
          initialSeekTimeRef := None;
          storedHistory := storedHistory st |})
  | None => (None, st)
  end.

(** [session.segments[currentSegmentIndex]] *)
Definition currentSegment (session : StreamSession) (st : State)
    : option StreamSegment :=
  if (currentSegmentIndex st <? 0)%Z then None
  else segments session !! Z.to_nat (currentSegmentIndex st).

(** A promise returned by [parseDanmakuXml], given by the outcome it
    settles with: rejected with an error, or fulfilled with the items. *)
Definition Promise : Type := string + list DanmakuItem.

(** The player state together with the calls of [loadDanmaku] that are
    suspended at their [await], oldest first.  The effect returns no
    cleanup, so a call stays suspended until its promise settles,
    whatever segment is shown by then. *)
Record Pending := {
  p_state : State;
  p_promises : list Promise
}.

(** [loadDanmaku()], as the effect calls it, up to its [await]: a
    segment without a comment log empties the list at once; otherwise
    [parseDanmakuXml] is called and the function is suspended on its
    promise. *)
Definition loadDanmaku (currentSegment : StreamSegment) (p : Pending)
    : Pending :=
  match danmakuFile currentSegment with
  | Some f =>
      {| p_state := p_state p;
         p_promises := p_promises p ++ [parseDanmakuXml f] |}
  | None =>
      {| p_state := setDanmakuData [] (p_state p);
         p_promises := p_promises p |}
  end.

(** The rest of [loadDanmaku], run when its promise has settled:
    [setDanmakuData(items)], or [setDanmakuData([])] in the [catch].
    Neither reads which segment is current. *)
Definition loadDanmaku_resumed (outcome : Promise) (st : State) : State :=
  match outcome with
  | inr items => setDanmakuData items st
  | inl _ => setDanmakuData [] st
  end.

(** The [n]-th pending promise settles and its call of [loadDanmaku]
    runs to its end. *)
Definition settle (n : nat) (p : Pending) : Pending :=
  match p_promises p !! n with
  | Some outcome =>
      {| p_state := loadDanmaku_resumed outcome (p_state p);
         p_promises := delete n (p_promises p) |}
  | None => p
  end.

(** [useEffect(() => { ...; loadDanmaku(); }, [currentSegment])], run
    after the render [render]; the call closes over the
    [currentSegment] of that render. *)
Definition loadEffect (session : StreamSession) (render : State)
    (p : Pending) : Pending :=
  match currentSegment session render with
  | Some segment => loadDanmaku segment p
  | None => p
  end.

(** [updateSmoothTime]: one animation frame while the video plays. *)
Definition updateSmoothTime (paused : bool) (videoEl_currentTime : Q)
    (st : State) : State :=
  if negb paused then setSmoothTime videoEl_currentTime st else st.

(** What a listener created by the player-initialisation effect closes
    over: the values of the render in which the effect ran.  The
    effect depends on [currentSegment], [currentSegmentIndex] and
    [session.segments.length] only, so the listener keeps the
    [smoothTime] of that render until the segment changes. *)
Record Closure := {
  c_smoothTime : Q;
  c_currentSegmentIndex : Z
}.

Definition capture (render : State) : Closure :=
  {| c_smoothTime := smoothTime render;
     c_currentSegmentIndex := currentSegmentIndex render |}.

Section Listeners.
Variable Object_keys : History.HistoryObject -> list string.
Variable session : StreamSession.

(** [handleTimeUpdate], with [videoEl.currentTime] and [Date.now()]
    as inputs. *)
Definition handleTimeUpdate (env : Closure) (videoEl_currentTime : Q)
    (now : Z) (st : State) : State :=
  let st := setCurrentTime videoEl_currentTime st in
  let st :=
    if JS.gt (Qabs (videoEl_currentTime - c_smoothTime env)) 0.5
    then setSmoothTime videoEl_currentTime st
    else st in
  if (Z.rem (Qfloor videoEl_currentTime) 5 =? 0)%Z
  then
    setStoredHistory
      (History.saveHistory Object_keys (id session) now
         videoEl_currentTime (c_currentSegmentIndex env)
         (storedHistory st))
      st
  else st.

(** The player-initialisation effect up to [setSmoothTime(startTime)],
    and the [timeupdate] listener it registers; binding the video source
    belongs to the transport. *)
Definition initPlayer (render : State) : State * Closure :=
  let st :=
    {| isPlaying := false; currentTime := startTime render;
       smoothTime := startTime render;
       currentSegmentIndex := currentSegmentIndex render;
       errorMsg := None; danmakuData := danmakuData render;
       initialSeekTimeRef := initialSeekTimeRef render;
       storedHistory := storedHistory render |} in
  (st, capture render).

(** What happens to a mounted player between two segment changes. *)
Inductive Event :=
| Frame (videoEl_currentTime : Q)
| TimeUpdate (videoEl_currentTime : Q) (now : Z).

Definition step (env : Closure) (st : State) (e : Event) : State :=
  match e with
  | Frame t => updateSmoothTime false t st
  | TimeUpdate t now => handleTimeUpdate env t now st
  end.

(** The player initialised from the render [render], then fed the
    events. *)
Definition run (render : State) (es : list Event) : State :=
  let '(st, env) := initPlayer render in
  foldl (step env) st es.
End Listeners.
End Component.

Arguments file {File} _.
Arguments danmakuFile {File} _.
Arguments id {File} _.
Arguments segments {File} _.
Arguments loadHistory {File} session st.
Arguments currentSegment {File} session st.
Arguments loadDanmaku {File} parseDanmakuXml currentSegment p.
Arguments loadEffect {File} parseDanmakuXml session render p.
Arguments handleTimeUpdate {File} Object_keys session env
  videoEl_currentTime now st.
Arguments step {File} Object_keys session env st e.
Arguments run {File} Object_keys session render es.

End Player.

(** ** The chat sidebar ([visibleChatList]) *)

Module Sidebar.
Import Danmaku.
Local Open Scope Q_scope.

(** [danmakuData.filter(d => d.time <= currentTime)] *)
Definition visibleChatList (danmakuData : list DanmakuItem)
    (currentTime : Q) : list DanmakuItem :=
  List.filter (fun d => Qle_bool (time d) currentTime) danmakuData.

End Sidebar.

(** ** The clock display ([formatTime]) *)

Module Format.
Local Open Scope Q_scope.

(** A [number] that may fail [isFinite]: [NaN] and the infinities are
    one value here. *)
Inductive number :=
| Finite (x : Q)
| NotFinite.

(** [Math.trunc], and [a % b] on numbers: the remainder has the sign of
    the dividend. *)
Definition trunc (x : Q) : Z :=
  if Qle_bool 0 x then Qfloor x else Qceiling x.

Definition rem (a b : Q) : Q := a - b * inject_Z (trunc (a / b)).

(** One decimal digit. *)
Definition decDigit (d : Z) : ascii :=
  match d with
  | 0%Z => "0" | 1%Z => "1" | 2%Z => "2" | 3%Z => "3" | 4%Z => "4"
  | 5%Z => "5" | 6%Z => "6" | 7%Z => "7" | 8%Z => "8" | _ => "9"
  end%char.

(** Decimal digits of a non-negative integer, most significant first,
    pushed in front of [acc]; [fuel] bounds the number of digits. *)
Fixpoint toDecAcc (fuel : nat) (n : Z) (acc : string) : string :=
  match fuel with
  | O => acc
  | S fuel' =>
      let acc' := String (decDigit (n mod 10)) acc in
      if (n <? 10)%Z then acc' else toDecAcc fuel' (n / 10) acc'
  end.

(** [Number.prototype.toString()] on an integer. *)
Definition toString10 (n : Z) : string :=
  if (n <? 0)%Z
  then String "-"%char (toDecAcc (S (Z.to_nat (Z.log2 (- n)))) (- n) EmptyString)
  else toDecAcc (S (Z.to_nat (Z.log2 n))) n EmptyString.

(** [formatTime] *)
Definition formatTime (time : number) : string :=
  match time with
  | NotFinite => "--:--"%string
  | Finite time =>
      let h := Qfloor (time / 3600) in
      let m := Qfloor (rem time 3600 / 60) in
      let s := Qfloor (rem time 60) in
      String.append
        (if (0 <? h)%Z then String.append (toString10 h) ":" else EmptyString)
        (String.append (JS.padStart 2 "0"%char (toString10 m))
           (String.append ":" (JS.padStart 2 "0"%char (toString10 s))))
  end.

(** The specification-side reading of a clock field: two decimal
    digits. *)
Definition twoDigits (n : Z) : string :=
  String (decDigit (n / 10)) (String (decDigit (n mod 10)) EmptyString).

End Format.

(** ** The persisted settings ([danmakuSettings]) *)

Module SettingsStore.
Import Overlay.
Local Open Scope Q_scope.

(** The object read back by [JSON.parse(saved)]: any of the fields may
    be missing. *)
Record Saved := {
  sv_show : option bool;
  sv_opacity : option Q;
  sv_size : option Q;
  sv_speed : option Q;
  sv_playbackRate : option Q;
  sv_longPressRate : option Q
}.

(** What [localStorage.getItem(STORAGE_KEY_SETTINGS)] holds: nothing, a
    text [JSON.parse] rejects, or an object. *)
Inductive Stored :=
| Absent
| Malformed
| Object (o : Saved).

(** [{ show: true, opacity: 1, size: 1.0, speed: 1.0, playbackRate: 1.0,
      longPressRate: 2.0 }] *)
Definition defaults : Settings :=
  {| show := true; opacity := 1; size := 1; speed := 1;
     playbackRate := 1; longPressRate := 2 |}.

(** [{ ...defaults, ...JSON.parse(saved) }] *)
Definition merge (d : Settings) (o : Saved) : Settings :=
  {| show := default (show d) (sv_show o);
     opacity := default (opacity d) (sv_opacity o);
     size := default (size d) (sv_size o);
     speed := default (speed d) (sv_speed o);
     playbackRate := default (playbackRate d) (sv_playbackRate o);
     longPressRate := default (longPressRate d) (sv_longPressRate o) |}.

(** The initialiser of the [danmakuSettings] state. *)
Definition loadSettings (saved : Stored) : Settings :=
  match saved with
  | Object o => merge defaults o
  | Malformed => defaults
  | Absent => defaults
  end.

(** The save effect: [const { playbackRate, ...toSave } = danmakuSettings]
    and [localStorage.setItem(..., JSON.stringify(toSave))]. *)
Definition saveSettings (danmakuSettings : Settings) : Stored :=
  Object {| sv_show := Some (show danmakuSettings);
            sv_opacity := Some (opacity danmakuSettings);
            sv_size := Some (size danmakuSettings);
            sv_speed := Some (speed danmakuSettings);
            sv_playbackRate := None;
            sv_longPressRate := Some (longPressRate danmakuSettings) |}.

(** The setters of the settings panel: [{ ...danmakuSettings, f: v }]. *)
Definition toggleShow (s : Settings) : Settings :=
  {| show := negb (show s); opacity := opacity s; size := size s;
     speed := speed s; playbackRate := playbackRate s;
     longPressRate := longPressRate s |}.

Definition setPlaybackRate (v : Q) (s : Settings) : Settings :=
  {| show := show s; opacity := opacity s; size := size s;
     speed := speed s; playbackRate := v;
     longPressRate := longPressRate s |}.

(** The rate applied to the video element:
    [isLongPressing ? longPressRate : playbackRate]. *)
Definition appliedRate (isLongPressing : bool) (s : Settings) : Q :=
  if isLongPressing then longPressRate s else playbackRate s.

End SettingsStore.

(** ** The handlers of the player controls *)

Module Controls.
Import Danmaku Player.
Local Open Scope Q_scope.

(** The fields of the video element the handlers read and write. *)
Record VideoEl := {
  el_currentTime : Q;
  el_paused : bool;
  el_volume : Q;
  el_muted : bool
}.

(** The player state together with [videoRef.current] ([None] while the
    error message replaces the video element) and the volume cells. *)
Record Mounted := {
  player : State;
  videoRef : option VideoEl;
  volume : Q;
  isMuted : bool
}.

Definition setIsPlaying (b : bool) (st : State) : State :=
  {| Player.isPlaying := b; currentTime := currentTime st;
     smoothTime := smoothTime st;
     currentSegmentIndex := currentSegmentIndex st;
     errorMsg := errorMsg st; danmakuData := danmakuData st;
     initialSeekTimeRef := initialSeekTimeRef st;
     storedHistory := storedHistory st |}.

(** [setCurrentSegmentIndex(idx)], the click on a segment button. *)
Definition setCurrentSegmentIndex (idx : Z) (st : State) : State :=
  {| Player.isPlaying := Player.isPlaying st; currentTime := currentTime st;
     smoothTime := smoothTime st;
     currentSegmentIndex := idx;
     errorMsg := errorMsg st; danmakuData := danmakuData st;
     initialSeekTimeRef := initialSeekTimeRef st;
     storedHistory := storedHistory st |}.

(** [videoEl.volume = isMuted ? 0 : volume], in the initialisation
    effect. *)
Definition applyVolume (m : Mounted) : Mounted :=
  {| player := player m;
     videoRef :=
       match videoRef m with
       | Some v => Some {| el_currentTime := el_currentTime v;
                           el_paused := el_paused v;
                           el_volume := if isMuted m then 0 else volume m;
                           el_muted := el_muted v |}
       | None => None
       end;
     volume := volume m; isMuted := isMuted m |}.

(** [handleVolumeChange] with [parseFloat(e.target.value) = v]. *)
Definition handleVolumeChange (v : Q) (m : Mounted) : Mounted :=
  {| player := player m;
     videoRef :=
       match videoRef m with
       | Some el => Some {| el_currentTime := el_currentTime el;
                            el_paused := el_paused el;
                            el_volume := v;
                            el_muted := el_muted el |}
       | None => None
       end;
     volume := v;
     isMuted := Qeq_bool v 0 |}.

(** [toggleMute] *)
Definition toggleMute (m : Mounted) : Mounted :=
  match videoRef m with
  | Some el =>
      let nextMuted := negb (isMuted m) in
      {| player := player m;
         videoRef := Some {| el_currentTime := el_currentTime el;
                             el_paused := el_paused el;
                             el_volume := if nextMuted then 0 else volume m;
                             el_muted := nextMuted |};
         volume := volume m;
         isMuted := nextMuted |}
  | None => m
  end.

(** What is heard: nothing when the element is muted, its volume
    otherwise. *)
Definition audible (el : VideoEl) : Q :=
  if el_muted el then 0 else el_volume el.

Section Handlers.
Context {File : Type}.
Variable Object_keys : History.HistoryObject -> list string.
Variable session : StreamSession File.

(** [handleSeek] with [parseFloat(e.target.value) = time], run when
    [Date.now()] is [now]. *)
Definition handleSeek (time : Q) (now : Z) (m : Mounted) : Mounted :=
  let st := player m in
  {| player :=
       setStoredHistory
         (History.saveHistory Object_keys (id session) now time
            (currentSegmentIndex st) (storedHistory st))
         (setSmoothTime time (setCurrentTime time st));
     videoRef :=
       match videoRef m with
       | Some el => Some {| el_currentTime := time;
                            el_paused := el_paused el;
                            el_volume := el_volume el;
                            el_muted := el_muted el |}
       | None => None
       end;
     volume := volume m; isMuted := isMuted m |}.

(** [handleEnded], a listener of the initialisation effect: the test
    reads the segment index and the segment count the effect closed
    over, the update [prev => prev + 1] reads the current index. *)
Definition handleEnded (env : Closure) (st : State) : State :=
  let st := setIsPlaying false st in
  if (c_currentSegmentIndex env
      <? Z.of_nat (length (segments session)) - 1)%Z
  then
    {| Player.isPlaying := Player.isPlaying st; currentTime := currentTime st;
       smoothTime := smoothTime st;
       currentSegmentIndex := currentSegmentIndex st + 1;
       errorMsg := errorMsg st; danmakuData := danmakuData st;
       initialSeekTimeRef := Some 0;
       storedHistory := storedHistory st |}
  else st.

(** The [pause] listener:
    [setIsPlaying(false); saveHistory(videoEl.currentTime, currentSegmentIndex)]. *)
Definition handlePause (env : Closure) (videoEl_currentTime : Q) (now : Z)
    (st : State) : State :=
  let st := setIsPlaying false st in
  setStoredHistory
    (History.saveHistory Object_keys (id session) now videoEl_currentTime
       (c_currentSegmentIndex env) (storedHistory st))
    st.

(** The save in the cleanup of the initialisation effect, run when the
    segment changes and when the player unmounts. *)
Definition saveOnCleanup (env : Closure) (videoEl_currentTime : Q) (now : Z)
    (st : State) : State :=
  setStoredHistory
    (History.saveHistory Object_keys (id session) now videoEl_currentTime
       (c_currentSegmentIndex env) (storedHistory st))
    st.

(** What the user and the video element do to a mounted player.  Each
    carries the position of the video element and the clock, which the
    cleanup save reads when the segment changes. *)
Inductive Action :=
| Ended (videoEl_currentTime : Q) (now : Z)
| Select (idx : nat) (videoEl_currentTime : Q) (now : Z)
| Ready.

(** After a handler turned [before] into [after]: when the segment
    index changed, the initialisation effect runs again -- its cleanup
    saves with the old listeners, then the player is initialised and new
    listeners close over the new render. *)
Definition rerun (old : Closure) (videoEl_currentTime : Q) (now : Z)
    (before after : State) : State * Closure :=
  if (currentSegmentIndex after =? currentSegmentIndex before)%Z
  then (after, old)
  else initPlayer (saveOnCleanup old videoEl_currentTime now after).

(** One action on a player and its current listeners.  The segment
    buttons, shown when the session has more than one segment, carry
    the indices below the segment count. *)
Definition act (a : Action) (sc : State * Closure) : State * Closure :=
  let '(st, env) := sc in
  match a with
  | Ended t now => rerun env t now st (handleEnded env st)
  | Select idx t now =>
      if (idx <? length (segments session))%nat
      then rerun env t now st (setCurrentSegmentIndex (Z.of_nat idx) st)
      else (st, env)
  | Ready => (snd (onPlayerReady st), env)
  end.

(** Open the session on the stored history [raw].  The first
    initialisation closes over the first render; if the history-load
    effect moved to another segment the effect runs again: cleanup save
    with the first listeners, reading the position of the video element
    and the clock, then initialisation. *)
Definition opened (raw : option History.HistoryObject)
    (videoEl_currentTime : Q) (now : Z) : State * Closure :=
  let render := initialState raw in
  let st := loadHistory session render in
  let first := fst (initPlayer st) in
  if (currentSegmentIndex st =? currentSegmentIndex render)%Z
  then (first, capture render)
  else initPlayer (saveOnCleanup (capture render) videoEl_currentTime now first).

(** Open the session, then apply the actions. *)
Definition play (raw : option History.HistoryObject)
    (videoEl_currentTime : Q) (now : Z) (acts : list Action)
    : State * Closure :=
  foldl (fun sc a => act a sc) (opened raw videoEl_currentTime now) acts.
End Handlers.

Arguments handleSeek {File} Object_keys session time now m.
Arguments handleEnded {File} session env st.
Arguments handlePause {File} Object_keys session env videoEl_currentTime now st.
Arguments saveOnCleanup {File} Object_keys session env videoEl_currentTime now st.
Arguments rerun {File} Object_keys session old videoEl_currentTime now before after.
Arguments act {File} Object_keys session a sc.
Arguments opened {File} Object_keys session raw videoEl_currentTime now.
Arguments play {File} Object_keys session raw videoEl_currentTime now acts.

End Controls.

(** ** Loading the comment log (the [loadDanmaku] effect) *)

Module CommentLog.
Import Danmaku Player Controls.
Local Open Scope Q_scope.

Section Effect.
Context {File : Type}.
Variable parseDanmakuXml : File -> string + list DanmakuItem.
Variable Object_keys : History.HistoryObject -> list string.
Variable session : StreamSession File.

(** The player state [st] with the suspended calls of [p]. *)
Definition withState (st : State) (p : Pending) : Pending :=
  {| p_state := st; p_promises := p_promises p |}.

(** Opening the session.  After the first render the effects run in the
    order of the source, each with the values of that render: the
    history-load effect, the comment effect on segment 0, the
    initialisation.  If the history moved to another segment the
    component renders again; the cleanup of the initialisation saves,
    and the comment effect and the initialisation run for the segment
    of the second render. *)
Definition opened (raw : option History.HistoryObject)
    (videoEl_currentTime : Q) (now : Z) : Pending * Closure :=
  let render := initialState raw in
  let st := loadHistory session render in
  let p := loadEffect parseDanmakuXml session render
             {| p_state := st; p_promises := [] |} in
  let first := withState (fst (initPlayer (p_state p))) p in
  if (currentSegmentIndex st =? currentSegmentIndex render)%Z
  then (first, capture render)
  else
    let second := p_state first in
    let p := withState
               (saveOnCleanup Object_keys session (capture render)
                  videoEl_currentTime now second)
               first in
    let p := loadEffect parseDanmakuXml session second p in
    (withState (fst (initPlayer (p_state p))) p,
     snd (initPlayer (p_state p))).

(** What happens to a mounted player: an action of the user or of the
    video element, or one of the pending promises settles. *)
Inductive Event :=
| Does (a : Action)
| Settles (n : nat).

(** One event.  An action that changes the segment index makes
    [currentSegment] another segment, so the comment effect runs again
    after it; the initialisation, run by [act], and the comment effect
    write different cells. *)
Definition on (e : Event) (pc : Pending * Closure) : Pending * Closure :=
  let '(p, env) := pc in
  match e with
  | Does a =>
      let '(st, env') := act Object_keys session a (p_state p, env) in
      if (currentSegmentIndex st =? currentSegmentIndex (p_state p))%Z
      then (withState st p, env')
      else (loadEffect parseDanmakuXml session st (withState st p), env')
  | Settles n => (settle n p, env)
  end.

(** Open the session, then let the events happen. *)
Definition replay (raw : option History.HistoryObject)
    (videoEl_currentTime : Q) (now : Z) (es : list Event)
    : Pending * Closure :=
  foldl (fun pc e => on e pc) (opened raw videoEl_currentTime now) es.

(** The actions among the events. *)
Definition actions (es : list Event) : list Action :=
  List.flat_map (fun e => match e with Does a => [a] | Settles _ => [] end) es.
End Effect.

Arguments opened {File} parseDanmakuXml Object_keys session raw
  videoEl_currentTime now.
Arguments on {File} parseDanmakuXml Object_keys session e pc.
Arguments replay {File} parseDanmakuXml Object_keys session raw
  videoEl_currentTime now es.

End CommentLog.

(** ** Inline emotes ([DanmakuContent]) *)

Module Emotes.

(** The pattern is the alternation of the keys, each escaped into a
    literal, in one capture group: at a position it matches the first
    key of the list that the rest of the text starts with. *)
Definition firstMatch (keys : list string) (rest : string) : option string :=
  List.find (fun k => String.prefix k rest) keys.

(** The loop of [String.prototype.split] with such a pattern.  [text] is
    the segment read since the last match, [skip] the number of
    characters of the last match still to pass.  A match that is empty
    and sits at the start of the segment is not taken; any other match
    closes the segment and is itself pushed, being the capture. *)
Fixpoint splitFrom (keys : list string) (text : string) (skip : nat)
    (rest : string) : list string :=
  match rest with
  | EmptyString => [text]
  | String c rest' =>
      match skip with
      | S n => splitFrom keys text n rest'
      | O =>
          match firstMatch keys rest with
          | Some k =>
              match String.length k with
              | S n => text :: k :: splitFrom keys EmptyString n rest'
              | O =>
                  match text with
                  | EmptyString =>
                      splitFrom keys (String c EmptyString) 0 rest'
                  | _ =>
                      text :: k :: splitFrom keys (String c EmptyString) 0 rest'
                  end
              end
          | None =>
              splitFrom keys (String.append text (String c EmptyString)) 0 rest'
          end
      end
  end.

(** [content.split(pattern)]: on the empty string the result is empty
    when the pattern matches it, and the string itself otherwise. *)
Definition split (keys : list string) (content : string) : list string :=
  match content with
  | EmptyString =>
      match firstMatch keys EmptyString with
      | Some _ => []
      | None => [EmptyString]
      end
  | _ => splitFrom keys EmptyString 0 content
  end.

(** [Object.keys(emots).sort((a, b) => b.length - a.length)] *)
Definition byLength (keys : list string) : list string :=
  JS.sort (fun a b => (Z.of_nat (String.length b)
                       - Z.of_nat (String.length a))%Z) keys.

(** The parts [DanmakuContent] renders, [keys] being [Object.keys(emots)]
    (no key when [emots] is missing): the content alone when there is no
    key, the split of the content otherwise. *)
Definition parts (keys : list string) (content : string) : list string :=
  match keys with
  | [] => [content]
  | _ => split (byLength keys) content
  end.

(** The parts put back together. *)
Definition joined (ps : list string) : string :=
  foldr String.append EmptyString ps.

End Emotes.

(** ** Navigation ([App]) *)

Module App.

Inductive ViewState := HOME | STREAMER | PLAYER.

Section Navigation.
Variables StreamerProfile StreamSession : Type.

(** The navigation cells of [App]. *)
Record Nav := {
  viewState : ViewState;
  selectedStreamer : option StreamerProfile;
  selectedSession : option StreamSession
}.

Definition initialNav : Nav :=
  {| viewState := HOME; selectedStreamer := None; selectedSession := None |}.

Definition handleSelectStreamer (streamer : StreamerProfile) (n : Nav) : Nav :=
  {| viewState := STREAMER; selectedStreamer := Some streamer;
     selectedSession := selectedSession n |}.

Definition handleSelectSession (session : StreamSession) (n : Nav) : Nav :=
  {| viewState := PLAYER; selectedStreamer := selectedStreamer n;
     selectedSession := Some session |}.

Definition handleBackToHome (n : Nav) : Nav :=
  {| viewState := HOME; selectedStreamer := None;
     selectedSession := selectedSession n |}.

Definition handleBackToStreamer (n : Nav) : Nav :=
  {| viewState := STREAMER; selectedStreamer := selectedStreamer n;
     selectedSession := None |}.

(** What the three conditional blocks of the returned element show. *)
Inductive Screen :=
| Home
| StreamerPage (streamer : StreamerProfile)
| PlayerView (session : StreamSession)
| Nothing.

Definition render (n : Nav) : Screen :=
  match viewState n with
  | HOME => Home
  | STREAMER =>
      match selectedStreamer n with
      | Some streamer => StreamerPage streamer
      | None => Nothing
      end
  | PLAYER =>
      match selectedSession n with
      | Some session => PlayerView session
      | None => Nothing
      end
  end.

(** The callbacks a screen receives: [onSelectStreamer] on the home
    screen, [onSelectSession] and [onBack] on the streamer page,
    [onBack] on the player. *)
Inductive Click :=
| SelectStreamer (streamer : StreamerProfile)
| SelectSession (session : StreamSession)
| Back.

Definition click (n : Nav) (c : Click) : Nav :=
  match render n, c with
  | Home, SelectStreamer streamer => handleSelectStreamer streamer n
  | StreamerPage _, SelectSession session => handleSelectSession session n
  | StreamerPage _, Back => handleBackToHome n
  | PlayerView _, Back => handleBackToStreamer n
  | _, _ => n
  end.

Definition clicks (cs : list Click) : Nav := foldl click initialNav cs.
End Navigation.

Arguments viewState {_ _} _.
Arguments selectedStreamer {_ _} _.
Arguments selectedSession {_ _} _.
Arguments render {_ _} n.
Arguments click {_ _} n c.
Arguments clicks {_ _} cs.
Arguments Home {_ _}.
Arguments StreamerPage {_ _} streamer.
Arguments PlayerView {_ _} session.
Arguments Nothing {_ _}.
Arguments SelectStreamer {_ _} streamer.
Arguments SelectSession {_ _} session.
Arguments Back {_ _}.

End App.

(** ** Sample inputs used to run the definitions *)

Module Sample.
Import Danmaku.
Local Open Scope Q_scope.

(** A plain white comment at time [t] with text [c]. *)
Definition comment (t : Q) (c : string) : DanmakuItem :=
  {| time := t; type := 1; size := 25; color := 16777215;
     timestamp := 0; pool := 0; uid := "1"; rowId := "0"; content := c;
     senderName := None; medalName := None; medalLevel := None;
     medalColorBorder := None; trackIndex := 0; emots := None;
     stickerUrl := None |}.

(** The default settings, at danmaku speed [v]. *)
Definition settings (v : Q) : Overlay.Settings :=
  {| Overlay.show := true; Overlay.opacity := 1; Overlay.size := 1;
     Overlay.speed := v; Overlay.playbackRate := 1;
     Overlay.longPressRate := 2 |}.

(** An enumeration of the own keys of a history object. *)
Definition ownKeys (h : History.HistoryObject) : list string :=
  (map_to_list h).*1.

Definition sessionId (i : nat) : string := String.append "room-" (pretty i).

(** [n] sessions, numbered from [from], all saved at the clock value
    [stamp]. *)
Definition stored (from n : nat) (stamp : Z) : History.HistoryObject :=
  list_to_map
    (List.map (fun i => (sessionId i,
                         {| History.time := 60;
                            History.segmentIndex := Some 0%Z;
                            History.ts := stamp |}))
              (seq from n)).

(** Saves of the sessions [from .. from + n - 1], one per millisecond
    starting at clock value [from]. *)
Definition oneByOne (from n : nat) : list History.Save :=
  List.map (fun i => {| History.s_session := sessionId i;
                        History.s_now := Z.of_nat i;
                        History.s_time := 60;
                        History.s_segmentIdx := 0 |})
           (seq from n).

(** A session of three segments, files given by name; the second
    segment has no comment log. *)
Definition session : Player.StreamSession string :=
  {| Player.id := "room-7";
     Player.segments :=
       [ {| Player.file := "a.flv"; Player.danmakuFile := Some "a.xml" |};
         {| Player.file := "b.flv"; Player.danmakuFile := None |};
         {| Player.file := "c.flv"; Player.danmakuFile := Some "c.xml" |} ] |}.

(** A parser that rejects ["c.xml"] and reads one comment from any
    other file. *)
Definition parseDanmakuXml (f : string) : string + list DanmakuItem :=
  if String.eqb f "c.xml" then inl "not well-formed"
  else inr [comment 1 "hi"].

(** A stored record of the sample session. *)
Definition resumeAt (t : Q) (segmentIndex : option Z)
    : option History.HistoryObject :=
  Some {[ "room-7" := {| History.time := t;
                         History.segmentIndex := segmentIndex;
                         History.ts := 1000 |} ]}.

End Sample.

(** * Properties *)

(** ** Overlay scheduler *)

Section OverlayFacts.
Import Danmaku Overlay.
Local Open Scope Q_scope.

Lemma inject_Z_pred (c : Z) : inject_Z (c - 1) == inject_Z c - 1.
Proof. unfold Qeq, Qminus, Qplus, Qopp, inject_Z; simpl; lia. Qed.

Lemma clampedLen_range (l : Z) : (1 <= clampedLen l <= 10)%Z.
Proof. unfold clampedLen; lia. Qed.

(** The factor as one affine expression of the clamped length. *)
Lemma intrinsicFactor_affine (l : Z) :
  intrinsicFactor l == (37 - inject_Z (clampedLen l)) * (1 # 36).
Proof.
  unfold intrinsicFactor, ratio. rewrite inject_Z_pred.
  unfold Qdiv. change (/ 9) with (1 # 9). lra.
Qed.

Lemma intrinsicFactor_range (l : Z) :
  0.75 <= intrinsicFactor l /\ intrinsicFactor l <= 1.
Proof.
  rewrite intrinsicFactor_affine.
  pose proof (clampedLen_range l) as [Hlo Hhi].
  rewrite Zle_Qle in Hlo, Hhi.
  change (inject_Z 1) with 1 in Hlo. change (inject_Z 10) with 10 in Hhi.
  split; lra.
Qed.

(** [a / x] is antitone in a positive divisor. *)
Lemma Qdiv_antitone (a x y : Q) :
  0 <= a -> 0 < x -> x <= y -> a / y <= a / x.
Proof.
  intros Ha Hx Hxy.
  assert (Hy : 0 < y) by lra.
  apply Qle_shift_div_l; [exact Hx|].
  unfold Qdiv. rewrite <- Qmult_assoc, (Qmult_comm (/ y)), Qmult_assoc.
  apply Qle_shift_div_r; [exact Hy|]. nra.
Qed.

Lemma duration_pos (speed : Q) (l : Z) : 0 < speed -> 0 < duration speed l.
Proof.
  intros Hs. destruct (intrinsicFactor_range l) as [Hlo _].
  unfold duration, BASE_DURATION.
  apply Qlt_shift_div_l; nra.
Qed.

Lemma duration_le_maxDuration (s : Settings) (l : Z) :
  0 < speed s -> duration (speed s) l <= maxDuration s.
Proof.
  intros Hs. destruct (intrinsicFactor_range l) as [Hlo _].
  unfold duration, maxDuration, BASE_DURATION.
  apply Qdiv_antitone; nra.
Qed.

Lemma pass2_exactWindow (s : Settings) (t : Q) (d : DanmakuItem) :
  pass2 t (withDuration s d) = exactWindow s t d.
Proof. reflexivity. Qed.

Lemma exactWindow_pass1 (s : Settings) (t : Q) (d : DanmakuItem) :
  0 < speed s -> exactWindow s t d = true -> pass1 s t d = true.
Proof.
  intros Hs. rewrite <- pass2_exactWindow. unfold pass2, pass1. simpl.
  rewrite !andb_true_iff, !Qle_bool_iff.
  pose proof (duration_le_maxDuration s (len d) Hs).
  intros [H1 H2]; split; lra.
Qed.

Lemma two_pass_list (s : Settings) (t : Q) (data : list DanmakuItem) :
  0 < speed s ->
  List.filter (pass2 t) (List.map (withDuration s) (List.filter (pass1 s t) data))
  = List.map (withDuration s) (List.filter (exactWindow s t) data).
Proof.
  intros Hs. induction data as [|d data IH]; [reflexivity|].
  simpl. destruct (pass1 s t d) eqn:E1; simpl.
  - rewrite pass2_exactWindow, IH.
    destruct (exactWindow s t d); reflexivity.
  - rewrite IH. destruct (exactWindow s t d) eqn:E2; [|reflexivity].
    apply (exactWindow_pass1 s t d Hs) in E2. congruence.
Qed.

(** C1. For every list of items, every current time and every positive
    speed the two-pass filter of [activeOverlayDanmaku] returns exactly
    the items the exact window [currentTime - D, currentTime + 0.5]
    selects from the whole list (nothing when the overlay is hidden):
    pass 1 keeps every item pass 2 keeps, because each exact duration
    [D = 16 / (speed * intrinsicFactor)] is at most the conservative
    bound [16 / (speed * 0.75)]. *)
Theorem two_pass_filter_is_exact_window
    (s : Settings) (data : list DanmakuItem) (currentTime : Q) :
  0 < speed s ->
  activeOverlayDanmaku s data currentTime
    = (if show s then exactFilter s data currentTime else [])
  /\ (forall d, exactWindow s currentTime d = true ->
                pass1 s currentTime d = true)
  /\ (forall d, 16 / (speed s * intrinsicFactor (len d))
                <= 16 / (speed s * 0.75)).
Proof.
  intros Hs. split; [|split].
  - unfold activeOverlayDanmaku, exactFilter.
    destruct (show s); simpl; [apply two_pass_list; exact Hs | reflexivity].
  - intros d. apply exactWindow_pass1; exact Hs.
  - intros d. apply (duration_le_maxDuration s (len d) Hs).
Qed.

(** C1 at speed 1 and time 20: of three comments only the one still
    inside its own 16 s window is kept. *)
Lemma two_pass_filter_is_exact_window_witness :
  0 < speed (Sample.settings 1)
  /\ activeOverlayDanmaku (Sample.settings 1)
       [Sample.comment 1 "a"; Sample.comment 3 "0123456789";
        Sample.comment 12 "hello"] 20
     = (if show (Sample.settings 1)
        then exactFilter (Sample.settings 1)
               [Sample.comment 1 "a"; Sample.comment 3 "0123456789";
                Sample.comment 12 "hello"] 20
        else []).
Proof.
  split; [reflexivity|].
  apply (two_pass_filter_is_exact_window (Sample.settings 1)
           [Sample.comment 1 "a"; Sample.comment 3 "0123456789";
            Sample.comment 12 "hello"] 20).
  reflexivity.
Defined.

(** C2. The scheduler computes the duration of an item as
    [16 / (speed * intrinsicFactor)]: every scheduled item carries it,
    and at a positive speed every item of the list inside the window
    [currentTime - D, currentTime + 0.5] is scheduled, with exactly that
    duration.  Here
    [intrinsicFactor = 1 - ((clamp(len, 1, 10) - 1) / 9) * 0.25] and an
    empty content counts as length 1; the factor stays between 0.75 and
    1, is 1 at length 1 and 0.75 at lengths 10 and 20, and a
    one-character comment lasts 16 at speed 1 and 8 at speed 2. *)
Theorem duration_model :
  (forall s data t,
      Forall (fun x => actualDuration x
                       = 16 / (speed s * intrinsicFactor (len (item x))))
             (activeOverlayDanmaku s data t))
  /\ (forall s data t d,
         0 < speed s -> show s = true -> In d data ->
         t - 16 / (speed s * intrinsicFactor (len d)) <= time d ->
         time d <= t + 0.5 ->
         In {| item := d;
               actualDuration := 16 / (speed s * intrinsicFactor (len d)) |}
            (activeOverlayDanmaku s data t))
  /\ (forall s data t,
         0 < speed s -> show s = true ->
         List.map item (activeOverlayDanmaku s data t)
         = List.filter
             (fun d =>
                Qle_bool (t - 16 / (speed s * intrinsicFactor (len d)))
                         (time d)
                && Qle_bool (time d) (t + 0.5))
             data)
  /\ (forall v l, duration v l = 16 / (v * intrinsicFactor l))
  /\ (forall d, len d = Z.max 1 (Z.of_nat (String.length (content d))))
  /\ len (Sample.comment 0 "") = 1%Z
  /\ (forall l, intrinsicFactor l
                == 1 - (inject_Z (Z.min (Z.max l 1) 10 - 1) / 9) * 0.25)
  /\ (forall l, 0.75 <= intrinsicFactor l /\ intrinsicFactor l <= 1)
  /\ intrinsicFactor 1 == 1
  /\ intrinsicFactor 10 == 0.75
  /\ intrinsicFactor 20 == 0.75
  /\ duration 1 1 == 16
  /\ duration 2 1 == 8.
Proof.
  split; [|split; [|split; [|split; [|split]]]].
  - intros s data t. unfold activeOverlayDanmaku.
    destruct (show s); simpl; [|constructor].
    apply List.Forall_forall. intros x Hx.
    apply filter_In in Hx as [Hx _].
    apply in_map_iff in Hx as [d [<- _]]. reflexivity.
  - intros s data t d Hs Hshow Hin Hlo Hhi.
    unfold activeOverlayDanmaku. rewrite Hshow. cbn [negb].
    rewrite (two_pass_list s t data Hs).
    apply in_map_iff. exists d. split; [reflexivity|].
    apply filter_In. split; [exact Hin|].
    unfold exactWindow. apply andb_true_iff.
    split; apply Qle_bool_iff; assumption.
  - intros s data t Hs Hshow.
    unfold activeOverlayDanmaku. rewrite Hshow. cbn [negb].
    rewrite (two_pass_list s t data Hs).
    rewrite List.map_map. cbn [withDuration item].
    rewrite List.map_id. reflexivity.
  - reflexivity.
  - intros d. unfold len.
    destruct (Z.eqb_spec (Z.of_nat (String.length (content d))) 0); lia.
  - repeat split; try reflexivity; apply intrinsicFactor_range.
Qed.

(** C2 at speed 2 and time 20: a five-character comment stamped 12 is
    inside its window and is scheduled with [16 / (2 * factor)]. *)
Lemma duration_model_witness :
  0 < speed (Sample.settings 2)
  /\ show (Sample.settings 2) = true
  /\ In {| item := Sample.comment 12 "hello";
           actualDuration :=
             16 / (speed (Sample.settings 2)
                   * intrinsicFactor (len (Sample.comment 12 "hello"))) |}
        (activeOverlayDanmaku (Sample.settings 2)
           [Sample.comment 1 "a"; Sample.comment 12 "hello"] 20).
Proof.
  split; [reflexivity|]. split; [reflexivity|].
  apply (proj1 (proj2 duration_model) (Sample.settings 2)
           [Sample.comment 1 "a"; Sample.comment 12 "hello"] 20
           (Sample.comment 12 "hello")).
  - reflexivity.
  - reflexivity.
  - right. left. reflexivity.
  - discriminate.
  - discriminate.
Defined.

Lemma scheduled_inv (s : Settings) (data : list DanmakuItem) (t : Q)
    (x : Scheduled) :
  In x (activeOverlayDanmaku s data t) ->
  x = withDuration s (item x)
  /\ t - actualDuration x <= time (item x)
  /\ time (item x) <= t + 0.5.
Proof.
  unfold activeOverlayDanmaku. destruct (show s); simpl; [|tauto].
  intros Hx. apply filter_In in Hx as [Hx Hw].
  apply in_map_iff in Hx as [d [<- _]].
  unfold pass2 in Hw. apply andb_true_iff in Hw as [H1 H2].
  apply Qle_bool_iff in H1, H2. auto.
Qed.

Lemma currentX_linear (t : Q) (x : Scheduled) :
  currentX t x == 100 - 200 * progress t x.
Proof. unfold currentX, startX, endX. ring. Qed.

(** C3, as the code has it. For every item of the visible set at a
    positive speed, [progress = (currentTime - t) / D] lies in
    [-0.5 / D, 1]: it is negative exactly while the item is inside the
    0.5 s lookahead ([t > currentTime]), at least 0 once
    [t <= currentTime], below 1 exactly while [t > currentTime - D], and
    equal to 1 exactly at the inclusive exit bound [t = currentTime - D].
    Both ends are reached: at a positive speed with the overlay shown,
    an item is in the visible set with progress [-0.5 / D] half a second
    before its time stamp and with progress 1 when its duration has
    elapsed.  The position is [100 - 200 * progress], so +100 at
    progress 0 and -100 at progress 1; an item with t = 10 and D = 16 is
    visible with progress 0 at time 10 and with progress 1 at time 26. *)
Theorem progress_within_lookahead_and_exit
    (s : Settings) (data : list DanmakuItem) (currentTime : Q) :
  0 < speed s ->
  Forall (fun x =>
            0 < actualDuration x
            /\ - (1 # 2) / actualDuration x <= progress currentTime x
            /\ progress currentTime x <= 1
            /\ (currentTime < time (item x) <-> progress currentTime x < 0)
            /\ (time (item x) <= currentTime <-> 0 <= progress currentTime x)
            /\ (currentTime - actualDuration x < time (item x) <->
                progress currentTime x < 1)
            /\ (time (item x) == currentTime - actualDuration x <->
                progress currentTime x == 1)
            /\ currentX currentTime x == 100 - 200 * progress currentTime x)
         (activeOverlayDanmaku s data currentTime)
  /\ (forall d,
         show s = true ->
         let x := withDuration s d in
         activeOverlayDanmaku s [d] (time d - 0.5) = [x]
         /\ progress (time d - 0.5) x == - (1 # 2) / actualDuration x
         /\ activeOverlayDanmaku s [d] (time d + actualDuration x) = [x]
         /\ progress (time d + actualDuration x) x == 1)
  /\ (forall t x, progress t x == 0 -> currentX t x == 100)
  /\ (forall t x, progress t x == 1 -> currentX t x == -100)
  /\ (let x := withDuration (Sample.settings 1) (Sample.comment 10 "a") in
      actualDuration x == 16
      /\ activeOverlayDanmaku (Sample.settings 1) [Sample.comment 10 "a"] 10 = [x]
      /\ progress 10 x == 0
      /\ activeOverlayDanmaku (Sample.settings 1) [Sample.comment 10 "a"] 26 = [x]
      /\ progress 26 x == 1).
Proof.
  intros Hs. split; [|split; [|split; [|split]]].
  - apply List.Forall_forall. intros x Hx.
    apply scheduled_inv in Hx as (Ex & Hlo & Hhi).
    assert (HD : 0 < actualDuration x).
    { rewrite Ex. simpl. apply duration_pos. exact Hs. }
    assert (Hinv : 0 <= / actualDuration x).
    { apply Qinv_le_0_compat. lra. }
    assert (Hp : progress currentTime x * actualDuration x
                 == currentTime - time (item x)).
    { unfold progress. cbv zeta. field. lra. }
    split; [exact HD|].
    split; [unfold progress; cbv zeta; unfold Qdiv;
            apply Qmult_le_compat_r; [lra | exact Hinv]|].
    split; [unfold progress; cbv zeta;
            apply Qle_shift_div_r; [exact HD | lra]|].
    split; [split; intros H; nra|].
    split; [split; intros H; nra|].
    split; [split; intros H; nra|].
    split; [split; intros H; nra|].
    apply currentX_linear.
  - intros d Hshow. cbv zeta.
    assert (HD : 0 < duration (speed s) (len d)) by (apply duration_pos; exact Hs).
    assert (Hshown : forall T, exactWindow s T d = true ->
                     activeOverlayDanmaku s [d] T = [withDuration s d]).
    { intros T HT. unfold activeOverlayDanmaku. rewrite Hshow. cbn [negb].
      rewrite (two_pass_list s T [d] Hs). cbn [List.filter].
      rewrite HT. reflexivity. }
    cbn [withDuration actualDuration].
    split; [|split; [|split]].
    + apply Hshown. rewrite <- pass2_exactWindow. unfold pass2.
      cbn [withDuration actualDuration item].
      apply andb_true_iff. split; apply Qle_bool_iff; lra.
    + unfold progress. cbv zeta. cbn [withDuration actualDuration item].
      field. lra.
    + apply Hshown. rewrite <- pass2_exactWindow. unfold pass2.
      cbn [withDuration actualDuration item].
      apply andb_true_iff. split; apply Qle_bool_iff; lra.
    + unfold progress. cbv zeta. cbn [withDuration actualDuration item].
      field. lra.
  - intros t x H. rewrite currentX_linear, H. reflexivity.
  - intros t x H. rewrite currentX_linear, H. reflexivity.
  - cbv zeta. repeat split.
Qed.

Lemma progress_within_lookahead_and_exit_witness :
  0 < speed (Sample.settings 1)
  /\ Forall (fun x => 0 < actualDuration x
                      /\ - (1 # 2) / actualDuration x <= progress 20 x
                      /\ progress 20 x <= 1
                      /\ (20 < time (item x) <-> progress 20 x < 0)
                      /\ (time (item x) <= 20 <-> 0 <= progress 20 x)
                      /\ (20 - actualDuration x < time (item x) <->
                          progress 20 x < 1)
                      /\ (time (item x) == 20 - actualDuration x <->
                          progress 20 x == 1)
                      /\ currentX 20 x == 100 - 200 * progress 20 x)
       (activeOverlayDanmaku (Sample.settings 1)
          [Sample.comment 12 "hello"; Sample.comment (41 # 2) "soon"] 20).
Proof.
  split; [reflexivity|].
  apply (progress_within_lookahead_and_exit (Sample.settings 1)
           [Sample.comment 12 "hello"; Sample.comment (41 # 2) "soon"] 20).
  reflexivity.
Defined.

(** C3 as stated fails: at speed 1 and time 10 a one-character comment
    at 10.5 is in the visible set, with progress -0.5 / 16. *)
Lemma progress_not_in_unit_interval :
  ~ (forall s data currentTime,
        0 < speed s ->
        Forall (fun x => 0 <= progress currentTime x
                         /\ progress currentTime x < 1)
               (activeOverlayDanmaku s data currentTime)).
Proof.
  intros H.
  specialize (H (Sample.settings 1) [Sample.comment (21 # 2) "a"] 10
                eq_refl).
  apply Forall_inv in H. destruct H as [H _]. vm_compute in H.
  apply H. reflexivity.
Qed.

End OverlayFacts.

(** ** The colour string *)

Section ColorFacts.
Import Overlay.
Local Open Scope Z_scope.

Lemma toHexAcc_fuel (f1 f2 : nat) (n : Z) (acc : string) :
  (0 <= n < 16 ^ Z.of_nat (S f1))%Z -> (0 <= n < 16 ^ Z.of_nat (S f2))%Z ->
  JS.toHexAcc (S f1) n acc = JS.toHexAcc (S f2) n acc.
Proof.
  revert f2 n acc. induction f1 as [|f1 IH]; intros f2 n acc H1 H2.
  - change (16 ^ Z.of_nat 1)%Z with 16%Z in H1.
    cbn [JS.toHexAcc]. destruct (Z.ltb_spec n 16); [reflexivity | lia].
  - destruct f2 as [|f2].
    + change (16 ^ Z.of_nat 1)%Z with 16%Z in H2.
      cbn [JS.toHexAcc]. destruct (Z.ltb_spec n 16); [reflexivity | lia].
    + cbn [JS.toHexAcc]. destruct (Z.ltb_spec n 16); [reflexivity|].
      apply IH.
      * rewrite (Nat2Z.inj_succ (S f1)), Z.pow_succ_r in H1 by lia.
        split; [apply Z.div_pos; lia | apply Z.div_lt_upper_bound; lia].
      * rewrite (Nat2Z.inj_succ (S f2)), Z.pow_succ_r in H2 by lia.
        split; [apply Z.div_pos; lia | apply Z.div_lt_upper_bound; lia].
Qed.

Lemma toString16_fuel (n : Z) :
  0 <= n -> n < 16 ^ Z.of_nat (S (Z.to_nat (Z.log2 n))).
Proof.
  intros Hpos. rewrite Nat2Z.inj_succ, Z2Nat.id by apply Z.log2_nonneg.
  destruct (Z.eq_dec n 0) as [->|Hn]; [reflexivity|].
  pose proof (Z.log2_spec n ltac:(lia)) as [_ Hlt].
  eapply Z.lt_le_trans; [exact Hlt|].
  apply Z.pow_le_mono_l. lia.
Qed.

Lemma toString16_six (c : Z) :
  (0 <= c < 16777216)%Z -> JS.toString16 c = JS.toHexAcc 6 c EmptyString.
Proof.
  intros Hc. unfold JS.toString16.
  destruct (Z.ltb_spec c 0); [lia|].
  apply toHexAcc_fuel; [|simpl; lia].
  pose proof (toString16_fuel c). lia.
Qed.

Ltac hex_digits :=
  cbv [JS.padStart String.length Nat.sub JS.repeatChar String.append];
  change "0"%char with (JS.hexDigit 0);
  repeat match goal with
         | |- String _ _ = String _ _ => f_equal
         | |- JS.hexDigit _ = JS.hexDigit _ =>
             f_equal; Z.to_euclidean_division_equations; lia
         end.

Lemma padStart_toString16 (c : Z) :
  (0 <= c < 16777216)%Z ->
  JS.padStart 6 "0"%char (JS.toString16 c) = hex6 c.
Proof.
  intros Hc. rewrite toString16_six by exact Hc.
  unfold hex6. cbn [JS.toHexAcc].
  destruct (Z.ltb_spec c 16);
    [hex_digits|].
  destruct (Z.ltb_spec (c / 16) 16);
    [hex_digits|].
  destruct (Z.ltb_spec (c / 16 / 16) 16);
    [hex_digits|].
  destruct (Z.ltb_spec (c / 16 / 16 / 16) 16);
    [hex_digits|].
  destruct (Z.ltb_spec (c / 16 / 16 / 16 / 16) 16);
    [hex_digits|].
  assert (c / 16 / 16 / 16 / 16 / 16 < 16)%Z
    by (Z.to_euclidean_division_equations; lia).
  destruct (Z.ltb_spec (c / 16 / 16 / 16 / 16 / 16) 16); [|lia].
  hex_digits.
Qed.

(** C8. For every packed colour [0 <= c < 2^24] the rendered string is
    ['#'] followed by the six lower-case hexadecimal digits of [c],
    zero-padded; the sentinel 16777215 renders as [#ffffff] and 255 as
    [#0000ff]. *)
Theorem colorHex_six_digits (c : Z) :
  (0 <= c < 2 ^ 24)%Z ->
  colorHex c = String "#"%char (hex6 c)
  /\ colorHex 16777215 = "#ffffff"%string
  /\ colorHex 255 = "#0000ff"%string.
Proof.
  intros Hc. split; [|split; reflexivity].
  unfold colorHex. destruct (Z.eqb_spec c 16777215) as [->|Hne].
  - reflexivity.
  - f_equal. apply padStart_toString16.
    change (2 ^ 24)%Z with 16777216%Z in Hc. exact Hc.
Qed.

Lemma colorHex_six_digits_witness :
  (0 <= 1193046 < 2 ^ 24)%Z
  /\ colorHex 1193046 = "#123456"%string.
Proof.
  split; [lia|].
  exact (proj1 (colorHex_six_digits 1193046 ltac:(lia))).
Defined.

End ColorFacts.

(** ** Sorting and bulk deletion *)

Section SortFacts.
Context {A : Type} (f : A -> Z).

(** The comparator of [saveHistory]: [(a, b) => f(b) - f(a)]. *)
Let byDescending (a b : A) : Z := (f b - f a)%Z.

Lemma sort_insert_perm (x : A) (l : list A) :
  JS.sort_insert byDescending x l ≡ₚ x :: l.
Proof.
  induction l as [|y l IH]; simpl; [reflexivity|].
  destruct (0 <? byDescending x y)%Z; [|reflexivity].
  rewrite IH. apply perm_swap.
Qed.

Lemma sort_perm (l : list A) : JS.sort byDescending l ≡ₚ l.
Proof.
  induction l as [|x l IH]; simpl; [reflexivity|].
  rewrite sort_insert_perm. by rewrite IH.
Qed.

Lemma sort_insert_sorted (x : A) (l : list A) :
  StronglySorted (fun a b => (f b <= f a)%Z) l ->
  StronglySorted (fun a b => (f b <= f a)%Z) (JS.sort_insert byDescending x l).
Proof.
  induction 1 as [|y l Hl IH Hy]; simpl.
  - repeat constructor.
  - unfold byDescending at 1. destruct (Z.ltb_spec 0 (f y - f x)) as [Hlt|Hge].
    + constructor; [exact IH|].
      rewrite sort_insert_perm. constructor; [lia | exact Hy].
    + constructor; [by constructor|].
      constructor; [lia|].
      eapply Forall_impl; [exact Hy|]. simpl. intros z Hz. lia.
Qed.

Lemma sort_sorted (l : list A) :
  StronglySorted (fun a b => (f b <= f a)%Z) (JS.sort byDescending l).
Proof.
  induction l as [|x l IH]; simpl; [constructor|].
  by apply sort_insert_sorted.
Qed.
End SortFacts.

Section DeleteAllFacts.
Import History.

Lemma deleteAll_lookup_elem (ks : list string) (h : HistoryObject) (k : string) :
  k ∈ ks -> deleteAll h ks !! k = None.
Proof.
  revert h. induction ks as [|k' ks IH]; intros h Hk; [by inversion Hk|].
  unfold deleteAll in *. simpl.
  destruct (decide (k ∈ ks)) as [Hin|Hnin]; [by apply IH|].
  apply elem_of_cons in Hk as [->|?]; [|done].
  clear IH. revert h. induction ks as [|k'' ks IH]; intros h; simpl.
  - apply lookup_delete_eq.
  - apply not_elem_of_cons in Hnin as [Hne Hnin].
    rewrite delete_delete. by apply IH.
Qed.

Lemma deleteAll_lookup_not_elem (ks : list string) (h : HistoryObject) (k : string) :
  k ∉ ks -> deleteAll h ks !! k = h !! k.
Proof.
  revert h. induction ks as [|k' ks IH]; intros h Hk; [done|].
  apply not_elem_of_cons in Hk as [Hne Hk].
  unfold deleteAll in *. simpl. rewrite IH by done.
  by apply lookup_delete_ne.
Qed.

Lemma deleteAll_size (ks : list string) (h : HistoryObject) :
  NoDup ks -> (forall k, k ∈ ks -> is_Some (h !! k)) ->
  size (deleteAll h ks) = size h - length ks.
Proof.
  revert h. induction ks as [|k ks IH]; intros h Hnd Hin; simpl.
  - unfold deleteAll. simpl. lia.
  - apply NoDup_cons in Hnd as [Hk Hnd].
    unfold deleteAll in *. simpl. rewrite IH; [|done|].
    + rewrite map_size_delete_Some by (apply Hin; left).
      lia.
    + intros k' Hk'. rewrite lookup_delete_ne by (intros ->; done).
      apply Hin. by right.
Qed.
End DeleteAllFacts.

(** ** The resume history *)

Section HistoryFacts.
Import History.

Variable Object_keys : HistoryObject -> list string.
(** [Object.keys] lists every own key once. *)
Hypothesis Object_keys_NoDup : forall h, NoDup (Object_keys h).
Hypothesis Object_keys_own :
  forall h k, k ∈ Object_keys h <-> is_Some (h !! k).

(** [keys.sort((a, b) => history[b].ts - history[a].ts)] *)
Let sortedKeys (h : HistoryObject) : list string :=
  JS.sort (fun a b => (ts_of h b - ts_of h a)%Z) (Object_keys h).

Lemma Object_keys_length (h : HistoryObject) : length (Object_keys h) = size h.
Proof.
  rewrite <- (size_dom (D := gset string) h).
  rewrite <- (size_list_to_set (C := gset string)) by apply Object_keys_NoDup.
  f_equal. apply set_eq. intros k.
  rewrite elem_of_list_to_set, Object_keys_own. by rewrite elem_of_dom.
Qed.

Lemma sortedKeys_perm (h : HistoryObject) : sortedKeys h ≡ₚ Object_keys h.
Proof. apply (sort_perm (ts_of h)). Qed.

Lemma sortedKeys_NoDup (h : HistoryObject) : NoDup (sortedKeys h).
Proof. rewrite sortedKeys_perm. apply Object_keys_NoDup. Qed.

Lemma sortedKeys_own (h : HistoryObject) (k : string) :
  k ∈ sortedKeys h <-> is_Some (h !! k).
Proof. rewrite sortedKeys_perm. apply Object_keys_own. Qed.

Lemma sortedKeys_length (h : HistoryObject) : length (sortedKeys h) = size h.
Proof. rewrite sortedKeys_perm. apply Object_keys_length. Qed.

Lemma sortedKeys_sorted (h : HistoryObject) :
  StronglySorted (fun a b => (ts_of h b <= ts_of h a)%Z) (sortedKeys h).
Proof. apply (sort_sorted (ts_of h)). Qed.

(** Every kept key is at least as recent as every removed one. *)
Lemma sortedKeys_take_drop (h : HistoryObject) (n : nat) (a b : string) :
  a ∈ take n (sortedKeys h) -> b ∈ drop n (sortedKeys h) ->
  (ts_of h b <= ts_of h a)%Z.
Proof.
  intros Ha Hb. pose proof (sortedKeys_sorted h) as Hs.
  rewrite <- (take_drop n (sortedKeys h)) in Hs.
  exact (StronglySorted_app_1_elem_of _ _ _ _ _ Hs Ha Hb).
Qed.

Lemma cleanup_small (h : HistoryObject) : size h <= 100 -> cleanup Object_keys h = h.
Proof.
  intros Hsz. unfold cleanup. rewrite Object_keys_length.
  destruct (Z.ltb_spec 100 (Z.of_nat (size h))); [lia | reflexivity].
Qed.

Lemma cleanup_large (h : HistoryObject) :
  100 < size h ->
  cleanup Object_keys h = deleteAll h (drop 100 (sortedKeys h)).
Proof.
  intros Hsz. unfold cleanup. rewrite Object_keys_length.
  destruct (Z.ltb_spec 100 (Z.of_nat (size h))); [reflexivity | lia].
Qed.

Lemma cleanup_size (h : HistoryObject) :
  size (cleanup Object_keys h) = Nat.min (size h) 100.
Proof.
  destruct (Nat.le_gt_cases (size h) 100) as [Hle|Hgt].
  - rewrite cleanup_small by done. lia.
  - rewrite cleanup_large by done. rewrite deleteAll_size.
    + rewrite length_drop, sortedKeys_length. lia.
    + eapply sublist_NoDup; [apply sortedKeys_NoDup | apply sublist_drop].
    + intros k Hk. apply sortedKeys_own.
      eapply elem_of_sublist; [exact Hk | apply sublist_drop].
Qed.

(** The cleanup only removes entries. *)
Lemma cleanup_lookup_Some (h : HistoryObject) (k : string)
    (r : PlaybackHistoryRecord) :
  cleanup Object_keys h !! k = Some r -> h !! k = Some r.
Proof.
  destruct (Nat.le_gt_cases (size h) 100) as [Hle|Hgt].
  - by rewrite cleanup_small.
  - rewrite cleanup_large by done. intros Hk.
    destruct (decide (k ∈ drop 100 (sortedKeys h))) as [Hin|Hnin].
    + by rewrite deleteAll_lookup_elem in Hk.
    + by rewrite deleteAll_lookup_not_elem in Hk.
Qed.

(** A removed entry was saved no later than any entry that stays. *)
Lemma cleanup_removes_oldest (h : HistoryObject) (k k' : string)
    (r r' : PlaybackHistoryRecord) :
  h !! k = Some r -> cleanup Object_keys h !! k = None ->
  cleanup Object_keys h !! k' = Some r' ->
  (ts r <= ts r')%Z.
Proof.
  destruct (Nat.le_gt_cases (size h) 100) as [Hle|Hgt].
  - rewrite cleanup_small by done. congruence.
  - rewrite cleanup_large by done. intros Hk Hgone Hkept.
    destruct (decide (k ∈ drop 100 (sortedKeys h))) as [Hin|Hnin];
      [|rewrite deleteAll_lookup_not_elem in Hgone by done; congruence].
    destruct (decide (k' ∈ drop 100 (sortedKeys h))) as [Hin'|Hnin'];
      [by rewrite deleteAll_lookup_elem in Hkept|].
    rewrite deleteAll_lookup_not_elem in Hkept by done.
    assert (Hk' : k' ∈ take 100 (sortedKeys h)).
    { assert (Hs : k' ∈ sortedKeys h) by (apply sortedKeys_own; eauto).
      rewrite <- (take_drop 100 (sortedKeys h)) in Hs.
      apply elem_of_app in Hs as [?|?]; done. }
    pose proof (sortedKeys_take_drop h 100 k' k Hk' Hin) as Hle.
    unfold ts_of in Hle. by rewrite Hk, Hkept in Hle.
Qed.

Lemma cleanup_evicts_some (h : HistoryObject) :
  100 < size h ->
  exists y ry, h !! y = Some ry /\ cleanup Object_keys h !! y = None.
Proof.
  intros Hgt. rewrite cleanup_large by done.
  destruct (drop 100 (sortedKeys h)) as [|y ys] eqn:E.
  - apply (f_equal length) in E.
    rewrite length_drop, sortedKeys_length in E. simpl in E. lia.
  - assert (Hy : y ∈ drop 100 (sortedKeys h)) by (rewrite E; left).
    assert (Hs : is_Some (h !! y)).
    { apply sortedKeys_own.
      eapply elem_of_sublist; [exact Hy | apply sublist_drop]. }
    destruct Hs as [ry Hry]. exists y, ry. split; [done|].
    rewrite <- E. by apply deleteAll_lookup_elem.
Qed.

(** *** Counting keys *)

Lemma length_le_size (l : list string) (m : HistoryObject) :
  NoDup l -> (forall k, k ∈ l -> is_Some (m !! k)) -> length l <= size m.
Proof.
  intros Hnd Hin.
  rewrite <- (size_list_to_set (C := gset string)) by done.
  rewrite <- (size_dom (D := gset string) m).
  apply subseteq_size. intros k Hk.
  apply elem_of_list_to_set in Hk. apply elem_of_dom. by apply Hin.
Qed.

Lemma size_le_length (l : list string) (m : HistoryObject) :
  NoDup l -> (forall k, is_Some (m !! k) -> k ∈ l) -> size m <= length l.
Proof.
  intros Hnd Hin.
  rewrite <- (size_list_to_set (C := gset string)) by done.
  rewrite <- (size_dom (D := gset string) m).
  apply subseteq_size. intros k Hk.
  apply elem_of_list_to_set. apply Hin. by apply elem_of_dom.
Qed.

(** *** The record just written *)

Lemma upsert_lookup_eq sid now t seg raw :
  upsert sid now t seg raw !! sid
  = Some {| time := t; segmentIndex := Some seg; ts := now |}.
Proof. unfold upsert. apply lookup_insert_eq. Qed.

Lemma upsert_lookup_ne sid now t seg raw k :
  k <> sid ->
  upsert sid now t seg raw !! k
  = parsed raw !! k.
Proof. intros Hne. unfold upsert. by apply lookup_insert_ne. Qed.

Lemma upsert_survives sid now t seg raw :
  size (savedSince sid now raw) < 100 ->
  cleanup Object_keys (upsert sid now t seg raw) !! sid
  = Some {| time := t; segmentIndex := Some seg; ts := now |}.
Proof.
  intros Hfew. set (h := upsert sid now t seg raw).
  destruct (Nat.le_gt_cases (size h) 100) as [Hle|Hgt].
  { rewrite cleanup_small by done. apply upsert_lookup_eq. }
  rewrite cleanup_large by done.
  destruct (decide (sid ∈ drop 100 (sortedKeys h))) as [Hin|Hnin];
    [|rewrite deleteAll_lookup_not_elem by done; apply upsert_lookup_eq].
  exfalso.
  assert (Hlen : length (take 100 (sortedKeys h)) = 100).
  { rewrite length_take, sortedKeys_length. lia. }
  pose proof (sortedKeys_NoDup h) as Hnd.
  rewrite <- (take_drop 100 (sortedKeys h)) in Hnd.
  apply NoDup_app in Hnd as (Hnd1 & Hdisj & _).
  enough (100 <= size (savedSince sid now raw)) by lia.
  rewrite <- Hlen. apply length_le_size; [done|].
  intros k Hk.
  assert (Hne : k <> sid) by (intros ->; by apply (Hdisj sid)).
  pose proof (sortedKeys_take_drop h 100 k sid Hk Hin) as Hts.
  assert (Hs : is_Some (h !! k)).
  { apply sortedKeys_own.
    eapply elem_of_sublist; [exact Hk | apply sublist_take]. }
  destruct Hs as [rk Hrk].
  unfold ts_of in Hts. rewrite Hrk in Hts.
  unfold h in Hts at 1. rewrite upsert_lookup_eq in Hts. simpl in Hts.
  unfold h in Hrk. rewrite upsert_lookup_ne in Hrk by done.
  exists rk. unfold savedSince. apply map_lookup_filter_Some. by split.
Qed.

Lemma upsert_evicted sid now t seg raw :
  100 <= size (savedAfter sid now raw) ->
  cleanup Object_keys (upsert sid now t seg raw) !! sid = None.
Proof.
  intros Hmany. set (h := upsert sid now t seg raw).
  assert (Hsub : forall k r, savedAfter sid now raw !! k = Some r ->
                   k <> sid /\ h !! k = Some r /\ (now < ts r)%Z).
  { intros k r Hk. unfold savedAfter in Hk.
    apply map_lookup_filter_Some in Hk as [Hk [Hne Hlt]]. simpl in *.
    split; [done|]. split; [|done].
    unfold h. by rewrite upsert_lookup_ne. }
  assert (Hgt : 100 < size h).
  { assert (size (savedAfter sid now raw) <= size (delete sid h)).
    { apply map_subseteq_size, map_subseteq_spec. intros k r Hk.
      apply Hsub in Hk as (Hne & Hk & _). by rewrite lookup_delete_ne. }
    rewrite map_size_delete_Some in H
      by (unfold h; rewrite upsert_lookup_eq; eauto).
    lia. }
  rewrite cleanup_large by done.
  destruct (decide (sid ∈ drop 100 (sortedKeys h))) as [Hin|Hnin];
    [by apply deleteAll_lookup_elem|].
  exfalso.
  assert (Hsid : sid ∈ take 100 (sortedKeys h)).
  { assert (Hs : sid ∈ sortedKeys h).
    { apply sortedKeys_own. unfold h. rewrite upsert_lookup_eq. eauto. }
    rewrite <- (take_drop 100 (sortedKeys h)) in Hs.
    apply elem_of_app in Hs as [?|?]; done. }
  apply list_elem_of_split in Hsid as (l1 & l2 & Hsplit).
  assert (Hl1 : length l1 < 100).
  { apply (f_equal length) in Hsplit.
    rewrite length_take, length_app, length_cons in Hsplit. lia. }
  pose proof (sortedKeys_NoDup h) as Hnd.
  pose proof (sortedKeys_sorted h) as Hsorted.
  rewrite <- (take_drop 100 (sortedKeys h)), Hsplit, <- app_assoc
    in Hnd, Hsorted.
  apply NoDup_app in Hnd as (Hnd1 & _ & _).
  apply StronglySorted_app_1_r in Hsorted.
  simpl in Hsorted. apply StronglySorted_inv in Hsorted as [_ Hafter].
  enough (size (savedAfter sid now raw) <= length l1) by lia.
  apply size_le_length; [done|].
  intros k [r Hk]. apply Hsub in Hk as (Hne & Hk & Hlt).
  assert (Hs : k ∈ sortedKeys h) by (apply sortedKeys_own; eauto).
  rewrite <- (take_drop 100 (sortedKeys h)), Hsplit, <- app_assoc in Hs.
  apply elem_of_app in Hs as [?|Hs]; [done|]. exfalso.
  simpl in Hs. apply elem_of_cons in Hs as [?|Hs]; [done|].
  rewrite Forall_forall in Hafter. specialize (Hafter k Hs).
  unfold ts_of in Hafter. rewrite Hk in Hafter.
  unfold h in Hafter. rewrite upsert_lookup_eq in Hafter. simpl in Hafter.
  lia.
Qed.

Lemma savedSince_others sid now raw :
  size (savedSince sid now raw) <= size (delete sid (parsed raw)).
Proof.
  apply map_subseteq_size, map_subseteq_spec. intros k r Hk.
  unfold savedSince in Hk.
  apply map_lookup_filter_Some in Hk as [Hk [Hne _]]. simpl in Hne.
  by rewrite lookup_delete_ne.
Qed.

Lemma savedSince_clock_ahead sid now raw :
  (forall k r, parsed raw !! k = Some r -> k <> sid -> (ts r < now)%Z) ->
  size (savedSince sid now raw) = 0.
Proof.
  intros Hahead. apply map_size_empty_iff, map_empty. intros k.
  destruct (savedSince sid now raw !! k) as [r|] eqn:E; [|done].
  unfold savedSince in E.
  apply map_lookup_filter_Some in E as [Hk [Hne Hle]]. simpl in *.
  specialize (Hahead k r Hk Hne). lia.
Qed.

(** C5, as the code has it. For every session id, time, segment index
    and prior store, right after [saveHistory] the store maps the
    session to exactly that time and segment index -- replacing any
    earlier record, and [load] returns it -- provided fewer than 100
    other stored sessions carry a [ts] at least as large as the clock
    value of this save; that is so whenever fewer than 100 other
    sessions are stored, and whenever the clock is ahead of every other
    stored [ts].  When 100 or more other stored sessions carry a larger
    [ts], the cleanup of the same save removes the record just written
    and [load] returns nothing. *)
Theorem save_then_load
    (session_id : string) (now : Z) (time : Q) (segmentIdx : Z)
    (raw : option HistoryObject) :
  let written := {| time := time; segmentIndex := Some segmentIdx; ts := now |} in
  let after := saveHistory Object_keys session_id now time segmentIdx raw in
  (size (savedSince session_id now raw) < 100 ->
   load session_id after = Some written)
  /\ (size (delete session_id (parsed raw)) < 100 ->
      load session_id after = Some written)
  /\ ((forall k r, parsed raw !! k = Some r -> k <> session_id ->
                   (ts r < now)%Z) ->
      load session_id after = Some written)
  /\ (100 <= size (savedAfter session_id now raw) ->
      load session_id after = None).
Proof.
  cbv zeta. unfold saveHistory, load. split; [|split; [|split]].
  - apply upsert_survives.
  - intros Hfew. apply upsert_survives.
    pose proof (savedSince_others session_id now raw). lia.
  - intros Hahead. apply upsert_survives.
    rewrite savedSince_clock_ahead by done. lia.
  - apply upsert_evicted.
Qed.

(** *** Sequences of saves *)

Lemma save_tracked (raw : option HistoryObject) (c : Save) :
  tracked (save Object_keys raw c) <= 100.
Proof. unfold save, saveHistory, tracked. rewrite cleanup_size. lia. Qed.

Lemma saves_snoc (raw : option HistoryObject) (cs : list Save) (c : Save) :
  saves Object_keys raw (cs ++ [c]) = save Object_keys (saves Object_keys raw cs) c.
Proof. unfold saves. by rewrite foldl_app. Qed.

Lemma saves_tracked (raw : option HistoryObject) (cs : list Save) :
  tracked raw <= 100 \/ cs <> [] ->
  tracked (saves Object_keys raw cs) <= 100.
Proof.
  destruct cs as [|c cs _] using rev_ind.
  - intros [H|H]; [exact H | done].
  - intros _. rewrite saves_snoc. apply save_tracked.
Qed.

Lemma allSaved_snoc (cs : list Save) (c : Save) :
  allSaved (cs ++ [c]) = <[s_session c := recordOf c]> (allSaved cs).
Proof. unfold allSaved. by rewrite foldl_app. Qed.

Lemma allSaved_lookup_inv (cs : list Save) (k : string)
    (r : PlaybackHistoryRecord) :
  allSaved cs !! k = Some r ->
  exists c, c ∈ cs /\ s_session c = k /\ r = recordOf c.
Proof.
  induction cs as [|c cs IH] using rev_ind.
  - unfold allSaved. simpl. by rewrite lookup_empty.
  - rewrite allSaved_snoc. intros Hk.
    apply lookup_insert_Some in Hk as [[<- <-]|[Hne Hk]].
    + exists c. split; [|done]. apply elem_of_app. right. by left.
    + destruct (IH Hk) as (c' & Hc' & Hid & Hr).
      exists c'. split; [|done]. apply elem_of_app. by left.
Qed.

Lemma allSaved_lookup_None (cs : list Save) (k : string) :
  k ∉ s_session <$> cs -> allSaved cs !! k = None.
Proof.
  intros Hk. destruct (allSaved cs !! k) as [r|] eqn:E; [|done].
  apply allSaved_lookup_inv in E as (c & Hc & <- & _).
  exfalso. apply Hk. apply list_elem_of_fmap. eauto.
Qed.

Lemma allSaved_lookup (cs : list Save) (c : Save) :
  NoDup (s_session <$> cs) -> c ∈ cs ->
  allSaved cs !! s_session c = Some (recordOf c).
Proof.
  induction cs as [|c' cs IH] using rev_ind; intros Hnd Hc.
  - by inversion Hc.
  - rewrite fmap_app in Hnd. apply NoDup_app in Hnd as (Hnd & Hdisj & _).
    rewrite allSaved_snoc. apply elem_of_app in Hc as [Hc|Hc].
    + rewrite lookup_insert_ne; [by apply IH|].
      intros Heq. apply (Hdisj (s_session c)).
      * apply list_elem_of_fmap. eauto.
      * simpl. rewrite <- Heq. left.
    + apply list_elem_of_singleton in Hc as ->. apply lookup_insert_eq.
Qed.

Lemma allSaved_size (cs : list Save) :
  NoDup (s_session <$> cs) -> size (allSaved cs) = length cs.
Proof.
  induction cs as [|c cs IH] using rev_ind; intros Hnd.
  - reflexivity.
  - rewrite fmap_app in Hnd. apply NoDup_app in Hnd as (Hnd & Hdisj & _).
    rewrite allSaved_snoc, length_app. simpl.
    rewrite map_size_insert_None, IH by
      (done || (apply allSaved_lookup_None; intros ?;
                eapply Hdisj; [done | left])).
    lia.
Qed.

(** After saves of distinct sessions into an empty store, the store is
    a part of everything saved, of size [min n 100], and whatever is
    missing from it was saved no later than whatever it holds. *)
Lemma saves_keep_latest (cs : list Save) :
  NoDup (s_session <$> cs) ->
  let h := parsed (saves Object_keys None cs) in
  (forall k r, h !! k = Some r -> allSaved cs !! k = Some r)
  /\ size h = Nat.min (length cs) 100
  /\ (forall k r k' r',
        allSaved cs !! k = Some r -> h !! k = None -> h !! k' = Some r' ->
        (ts r <= ts r')%Z).
Proof.
  induction cs as [|c cs IH] using rev_ind; intros Hnd.
  - simpl. split; [done|]. split; [done|].
    intros k r k' r' _ _ H. by rewrite lookup_empty in H.
  - rewrite fmap_app in Hnd. apply NoDup_app in Hnd as (Hnd & Hdisj & _).
    specialize (IH Hnd). cbv zeta in IH. destruct IH as (Hsub & Hsz & Htop).
    assert (Hfresh : allSaved cs !! s_session c = None).
    { apply allSaved_lookup_None. intros ?. eapply Hdisj; [done | left]. }
    cbv zeta. rewrite saves_snoc, allSaved_snoc.
    unfold save, saveHistory. simpl parsed.
    set (h := parsed (saves Object_keys None cs)) in *.
    set (h1 := upsert (s_session c) (s_now c) (s_time c) (s_segmentIdx c)
                 (saves Object_keys None cs)).
    assert (Hh1 : h1 = <[s_session c := recordOf c]> h) by reflexivity.
    assert (Hhfresh : h !! s_session c = None).
    { destruct (h !! s_session c) as [r|] eqn:E; [|done].
      apply Hsub in E. congruence. }
    assert (Hsub1 : forall k r, h1 !! k = Some r ->
              <[s_session c := recordOf c]> (allSaved cs) !! k = Some r).
    { intros k r. rewrite Hh1. rewrite !lookup_insert_Some.
      intros [?|[? ?]]; [by left | right; auto]. }
    assert (Hsz1 : size h1 = S (size h)).
    { rewrite Hh1. by apply map_size_insert_None. }
    split; [|split].
    + intros k r Hk. apply Hsub1. by apply cleanup_lookup_Some in Hk.
    + rewrite cleanup_size, Hsz1, Hsz, length_app. simpl. lia.
    + intros k r k' r' HM Hgone Hkept.
      destruct (h1 !! k) as [r0|] eqn:E1.
      * assert (r0 = r) as -> by (apply Hsub1 in E1; congruence).
        by eapply cleanup_removes_oldest.
      * rewrite Hh1 in E1. apply lookup_insert_None in E1 as [Hk Hne].
        rewrite lookup_insert_ne in HM by done.
        pose proof (cleanup_lookup_Some _ _ _ Hkept) as Hkept1.
        rewrite Hh1 in Hkept1.
        apply lookup_insert_Some in Hkept1 as [[<- <-]|[Hne' Hk']];
          [|by eapply Htop].
        assert (Hbig : 100 < size h1).
        { rewrite Hsz1, Hsz.
          destruct (Nat.le_gt_cases (length cs) 100) as [Hle|Hgt]; [|lia].
          exfalso.
          assert (Heq : h = allSaved cs).
          { apply map_subseteq_size_eq.
            - apply map_subseteq_spec. exact Hsub.
            - rewrite allSaved_size, Hsz by done. lia. }
          rewrite Heq in Hk. congruence. }
        destruct (cleanup_evicts_some h1 Hbig) as (y & ry & Hy & Hygone).
        assert (Hyh : h !! y = Some ry).
        { rewrite Hh1 in Hy.
          apply lookup_insert_Some in Hy as [[<- _]|[_ ?]]; [|done].
          congruence. }
        pose proof (cleanup_removes_oldest _ _ _ _ _ Hy Hygone Hkept).
        pose proof (Htop _ _ _ _ HM Hk Hyh). lia.
Qed.

(** With a strictly increasing clock the sessions kept are exactly the
    last 100 saved. *)
Lemma saves_keep_last (cs : list Save) (i : nat) (c : Save) :
  NoDup (s_session <$> cs) ->
  StronglySorted (fun a b => (s_now a < s_now b)%Z) cs ->
  cs !! i = Some c ->
  is_Some (parsed (saves Object_keys None cs) !! s_session c)
  <-> length cs - 100 <= i.
Proof.
  intros Hnd Hclock Hi.
  destruct (saves_keep_latest cs Hnd) as (Hsub & Hsz & Htop).
  set (h := parsed (saves Object_keys None cs)) in *.
  pose proof (lookup_lt_Some _ _ _ Hi) as Hlt.
  pose proof (take_drop_middle _ _ _ Hi) as Hmid.
  assert (Hc : c ∈ cs) by (eapply list_elem_of_lookup_2; exact Hi).
  assert (Hbefore : forall a, a ∈ take i cs -> (s_now a < s_now c)%Z).
  { intros a Ha. rewrite <- Hmid in Hclock.
    eapply (StronglySorted_app_1_elem_of _ _ _ _ _ Hclock Ha). left. }
  assert (Hafter : forall b, b ∈ drop (S i) cs -> (s_now c < s_now b)%Z).
  { intros b Hb. rewrite <- Hmid in Hclock.
    apply StronglySorted_app_1_r, StronglySorted_inv in Hclock as [_ Hall].
    rewrite Forall_forall in Hall. by apply Hall. }
  assert (Hnd_from : forall n, NoDup (s_session <$> drop n cs)).
  { intros n. rewrite fmap_drop.
    eapply sublist_NoDup; [exact Hnd | apply sublist_drop]. }
  split.
  - intros [r Hr].
    destruct (Nat.le_gt_cases (length cs - 100) i) as [|Hearly]; [done|].
    exfalso.
    assert (r = recordOf c) as ->.
    { apply Hsub in Hr. rewrite allSaved_lookup in Hr by done. congruence. }
    assert (Hlen : length (s_session <$> drop i cs) <= size h).
    { apply length_le_size; [apply Hnd_from|].
      intros k Hk. apply list_elem_of_fmap in Hk as (c' & -> & Hc').
      destruct (h !! s_session c') as [r'|] eqn:E; [eauto|]. exfalso.
      assert (Hc'cs : c' ∈ cs).
      { eapply elem_of_sublist; [exact Hc' | apply sublist_drop]. }
      pose proof (Htop _ _ _ _ (allSaved_lookup cs c' Hnd Hc'cs) E Hr) as Hts.
      simpl in Hts.
      rewrite <- Hmid in Hc'. rewrite drop_app_length' in Hc'
        by (rewrite length_take; lia).
      apply elem_of_cons in Hc' as [->|Hc']; [congruence|].
      specialize (Hafter c' Hc'). lia. }
    rewrite length_fmap, length_drop, Hsz in Hlen. lia.
  - intros Hlate.
    destruct (h !! s_session c) as [r|] eqn:E; [eauto|]. exfalso.
    assert (Hlen : size h <= length (s_session <$> drop (S i) cs)).
    { apply size_le_length; [apply Hnd_from|].
      intros k [r' Hk]. pose proof (Hsub _ _ Hk) as HM.
      apply allSaved_lookup_inv in HM as (c' & Hc' & <- & ->).
      pose proof (Htop _ _ _ _ (allSaved_lookup cs c Hnd Hc) E Hk) as Hts.
      simpl in Hts.
      apply list_elem_of_fmap. exists c'. split; [done|].
      rewrite <- Hmid in Hc'.
      apply elem_of_app in Hc' as [Hc'|Hc'].
      + specialize (Hbefore c' Hc'). lia.
      + apply elem_of_cons in Hc' as [->|Hc']; [congruence | done]. }
    rewrite length_fmap, length_drop, Hsz in Hlen. lia.
Qed.

(** C4. After any sequence of saves the store tracks at most 100
    sessions (from an empty store, and from any store once one save has
    run).  The cleanup leaves [min n 100] of the [n] entries, only
    removes, and every entry it removes carries a [ts] no later than
    every entry it keeps.  After saves of distinct sessions into an
    empty store, the sessions kept have their saved record, and every
    session missing was saved no later than every session kept; when
    the clock increases from save to save the sessions kept are exactly
    the last 100 saved, so of 150 sessions exactly the 100 most recent
    remain. *)
Theorem history_keeps_100_most_recent :
  (forall cs, tracked (saves Object_keys None cs) <= 100)
  /\ (forall raw c cs, tracked (saves Object_keys raw (c :: cs)) <= 100)
  /\ (forall h,
        size (cleanup Object_keys h) = Nat.min (size h) 100
        /\ (forall k r, cleanup Object_keys h !! k = Some r -> h !! k = Some r)
        /\ (forall k r k' r',
              h !! k = Some r ->
              cleanup Object_keys h !! k = None ->
              cleanup Object_keys h !! k' = Some r' ->
              (ts r <= ts r')%Z))
  /\ (forall cs,
        NoDup (s_session <$> cs) ->
        let final := saves Object_keys None cs in
        tracked final = Nat.min (length cs) 100
        /\ (length cs = 150 -> tracked final = 100)
        /\ (forall k r, load k final = Some r ->
                        exists c, c ∈ cs /\ s_session c = k /\ r = recordOf c)
        /\ (forall c c',
              c ∈ cs -> c' ∈ cs ->
              load (s_session c) final = None ->
              load (s_session c') final <> None ->
              (s_now c <= s_now c')%Z)
        /\ (StronglySorted (fun a b => (s_now a < s_now b)%Z) cs ->
            forall i c, cs !! i = Some c ->
              (load (s_session c) final = Some (recordOf c)
               <-> length cs - 100 <= i)
              /\ (load (s_session c) final = None
                  <-> i < length cs - 100))).
Proof.
  split; [|split; [|split]].
  - intros cs. apply saves_tracked. left. simpl. lia.
  - intros raw c cs. apply saves_tracked. by right.
  - intros h. split; [apply cleanup_size|].
    split; [apply cleanup_lookup_Some|].
    intros k r k' r'. apply cleanup_removes_oldest.
  - intros cs Hnd final.
    destruct (saves_keep_latest cs Hnd) as (Hsub & Hsz & Htop).
    assert (Hload : forall k, load k final = parsed final !! k).
    { intros k. unfold load, parsed. destruct final; [done|].
      by rewrite lookup_empty. }
    assert (Htracked : tracked final = size (parsed final)).
    { unfold tracked, parsed. by destruct final. }
    fold final in Hsub, Hsz, Htop.
    split; [by rewrite Htracked|].
    split; [intros Hlen; rewrite Htracked, Hsz, Hlen; reflexivity|].
    split; [|split].
    + intros k r Hk. rewrite Hload in Hk.
      apply allSaved_lookup_inv. by apply Hsub.
    + intros c c' Hc Hc' Hgone Hkept. rewrite Hload in Hgone, Hkept.
      destruct (parsed final !! s_session c') as [r'|] eqn:E; [|done].
      pose proof (Hsub _ _ E) as HM.
      rewrite allSaved_lookup in HM by done. injection HM as <-.
      exact (Htop _ _ _ _ (allSaved_lookup cs c Hnd Hc) Hgone E).
    + intros Hclock i c Hi.
      pose proof (saves_keep_last cs i c Hnd Hclock Hi) as Hlast.
      fold final in Hlast. rewrite !Hload.
      assert (Hc : c ∈ cs) by (eapply list_elem_of_lookup_2; exact Hi).
      split.
      * rewrite <- Hlast. split; [eauto|].
        intros [r Hr]. pose proof (Hsub _ _ Hr) as HM.
        rewrite allSaved_lookup in HM by done. congruence.
      * rewrite eq_None_not_Some, Hlast. lia.
Qed.

End HistoryFacts.

(** *** The history on sample stores *)

Section HistorySamples.
Import History.

Lemma ownKeys_NoDup (h : HistoryObject) : NoDup (Sample.ownKeys h).
Proof. apply NoDup_fst_map_to_list. Qed.

Lemma ownKeys_own (h : HistoryObject) (k : string) :
  k ∈ Sample.ownKeys h <-> is_Some (h !! k).
Proof.
  unfold Sample.ownKeys. rewrite list_elem_of_fmap. split.
  - intros ([k' r] & -> & Hkr). apply elem_of_map_to_list in Hkr. eauto.
  - intros [r Hr]. exists (k, r). split; [done|].
    by apply elem_of_map_to_list.
Qed.

Lemma oneByOne_distinct : NoDup (s_session <$> Sample.oneByOne 0 150).
Proof. apply (bool_decide_unpack _). vm_compute. exact I. Defined.

Lemma oneByOne_clock :
  StronglySorted (fun a b => (s_now a < s_now b)%Z) (Sample.oneByOne 0 150).
Proof. apply (bool_decide_unpack _). vm_compute. exact I. Defined.

(** C4 on 150 sessions saved one per millisecond into an empty store:
    100 remain, session 49 is gone and session 50 is kept. *)
Lemma history_keeps_100_most_recent_witness :
  NoDup (s_session <$> Sample.oneByOne 0 150)
  /\ tracked (saves Sample.ownKeys None (Sample.oneByOne 0 150)) = 100
  /\ load (Sample.sessionId 49)
       (saves Sample.ownKeys None (Sample.oneByOne 0 150)) = None
  /\ load (Sample.sessionId 50)
       (saves Sample.ownKeys None (Sample.oneByOne 0 150))
     = Some {| time := 60; segmentIndex := Some 0%Z; ts := 50 |}.
Proof.
  split; [exact oneByOne_distinct|].
  destruct (history_keeps_100_most_recent Sample.ownKeys
              ownKeys_NoDup ownKeys_own) as (_ & _ & _ & H).
  destruct (H (Sample.oneByOne 0 150) oneByOne_distinct)
    as (_ & H150 & _ & _ & Hlast).
  split; [apply H150; reflexivity|].
  specialize (Hlast oneByOne_clock).
  split.
  - apply (proj2 (Hlast 49 _ eq_refl)). simpl. lia.
  - apply (proj1 (Hlast 50 _ eq_refl)). simpl. lia.
Defined.

(** C5 on a full store of 100 sessions saved at clock value 1000: a
    save of one of them at 2000 is read back, and a save of a new
    session at 500 is not. *)
Lemma save_then_load_witness :
  size (savedSince "room-3" 2000 (Some (Sample.stored 0 100 1000))) < 100
  /\ load "room-3"
       (saveHistory Sample.ownKeys "room-3" 2000 42 1
          (Some (Sample.stored 0 100 1000)))
     = Some {| time := 42; segmentIndex := Some 1%Z; ts := 2000 |}
  /\ 100 <= size (savedAfter "new" 500 (Some (Sample.stored 0 100 1000)))
  /\ load "new"
       (saveHistory Sample.ownKeys "new" 500 42 1
          (Some (Sample.stored 0 100 1000)))
     = None.
Proof.
  assert (H1 : size (savedSince "room-3" 2000
                       (Some (Sample.stored 0 100 1000))) < 100)
    by (vm_compute; lia).
  assert (H2 : 100 <= size (savedAfter "new" 500
                              (Some (Sample.stored 0 100 1000))))
    by (vm_compute; lia).
  split; [exact H1|]. split.
  - exact (proj1 (save_then_load Sample.ownKeys ownKeys_NoDup ownKeys_own
                    "room-3" 2000 42 1 (Some (Sample.stored 0 100 1000))) H1).
  - split; [exact H2|].
    exact (proj2 (proj2 (proj2
             (save_then_load Sample.ownKeys ownKeys_NoDup ownKeys_own
                "new" 500 42 1 (Some (Sample.stored 0 100 1000))))) H2).
Defined.

(** C5 as stated fails: with 100 sessions stored at clock value 1000, a
    save of a new session while the clock reads 500 is removed by its
    own cleanup. *)
Lemma save_not_always_loaded :
  ~ (forall session_id now time segmentIdx raw,
        load session_id
          (saveHistory Sample.ownKeys session_id now time segmentIdx raw)
        = Some {| time := time; segmentIndex := Some segmentIdx; ts := now |}).
Proof.
  intros H.
  specialize (H "new"%string 500%Z 42%Q 1%Z (Some (Sample.stored 0 100 1000))).
  vm_compute in H. discriminate H.
Qed.

End HistorySamples.

(** ** The player: resume, comment loading, clock resynchronisation *)

Section PlayerFacts.
Import History Player.
Local Open Scope Q_scope.

Context {File : Type}.
Implicit Types (session : StreamSession File) (raw : option HistoryObject).

Lemma loadHistory_cases session raw :
  let st := loadHistory session (initialState raw) in
  st = initialState raw
  \/ exists record idx,
       load (id session) raw = Some record
       /\ segmentIndex record = Some idx
       /\ 5 < time record
       /\ (0 <= idx < Z.of_nat (length (segments session)))%Z
       /\ st = resumeAt idx (time record) (initialState raw).
Proof.
  cbv zeta. unfold loadHistory, load. simpl storedHistory.
  destruct raw as [history|]; [|by left].
  destruct (history !! id session) as [record|]; [|by left].
  unfold JS.gt. destruct (Qle_bool (time record) 5) eqn:Et; [by left|].
  simpl negb. cbv iota.
  destruct (segmentIndex record) as [idx|] eqn:Eidx; [|by left].
  destruct (Z.leb_spec 0 idx); [|by left].
  destruct (Z.ltb_spec idx (Z.of_nat (length (segments session))));
    [|by left].
  right. exists record, idx. repeat split; try done.
  apply Qnot_le_lt. intros Hle. apply Qle_bool_iff in Hle. congruence.
Qed.

(** C7. A stored position is resumed only if its saved time is greater
    than 5 seconds: whenever the history-load effect sets the seek
    target, the stored record has [time > 5] and the target is that
    time; for every stored record with [time <= 5] the effect changes
    nothing, so the player stays on segment 0, starts at time 0 and
    seeks nowhere when the video is ready. *)
Theorem resume_only_after_5_seconds session raw :
  (forall t,
      initialSeekTimeRef (loadHistory session (initialState raw)) = Some t ->
      exists record,
        load (id session) raw = Some record
        /\ 5 < time record /\ t = time record)
  /\ (forall record,
        load (id session) raw = Some record ->
        time record <= 5 ->
        let st := loadHistory session (initialState raw) in
        st = initialState raw
        /\ currentSegmentIndex st = 0%Z
        /\ initialSeekTimeRef st = None
        /\ startTime st = 0
        /\ fst (onPlayerReady st) = None).
Proof.
  split.
  - intros t Ht.
    destruct (loadHistory_cases session raw)
      as [E|(record & idx & Hrec & _ & Hgt & _ & E)]; cbv zeta in E;
      rewrite E in Ht; simpl in Ht; [discriminate|].
    injection Ht as <-. eauto.
  - intros record Hrec Hle. cbv zeta.
    destruct (loadHistory_cases session raw)
      as [E|(record' & idx & Hrec' & _ & Hgt & _ & E)]; cbv zeta in E.
    + rewrite E. repeat split.
    + exfalso. rewrite Hrec in Hrec'. injection Hrec' as <-.
      apply (Qlt_not_le _ _ Hgt Hle).
Qed.

(** C10. A stored record whose [segmentIndex] is undefined, negative,
    or at least the number of segments is ignored: the history-load
    effect changes nothing, so the player stays on segment 0 with no
    seek target.  Whatever is stored, the segment index after the
    effect designates a segment of a non-empty session. *)
Theorem out_of_range_segment_ignored session raw :
  (forall record,
      load (id session) raw = Some record ->
      segmentIndex record = None
      \/ (exists idx, segmentIndex record = Some idx
                      /\ (idx < 0
                          \/ Z.of_nat (length (segments session)) <= idx)%Z) ->
      let st := loadHistory session (initialState raw) in
      st = initialState raw
      /\ currentSegmentIndex st = 0%Z
      /\ initialSeekTimeRef st = None
      /\ fst (onPlayerReady st) = None)
  /\ (segments session <> [] ->
      is_Some (currentSegment session
                 (loadHistory session (initialState raw)))).
Proof.
  split.
  - intros record Hrec Hbad. cbv zeta.
    destruct (loadHistory_cases session raw)
      as [E|(record' & idx & Hrec' & Hidx & _ & Hrange & E)]; cbv zeta in E.
    + rewrite E. repeat split.
    + exfalso. rewrite Hrec in Hrec'. injection Hrec' as <-.
      destruct Hbad as [Hnone|(idx' & Hsome & Hout)]; [congruence|].
      rewrite Hidx in Hsome. injection Hsome as <-. lia.
  - intros Hne.
    destruct (loadHistory_cases session raw)
      as [E|(record & idx & _ & _ & _ & Hrange & E)]; cbv zeta in E;
      rewrite E; unfold currentSegment; simpl.
    + destruct (segments session); [done | eauto].
    + destruct (Z.ltb_spec idx 0); [lia|].
      apply lookup_lt_is_Some. lia.
Qed.

(** What [handleTimeUpdate] does to the smoothed clock: the comparison
    reads the [smoothTime] the listener closed over. *)
Lemma handleTimeUpdate_smoothTime Object_keys session env t now st :
  smoothTime (handleTimeUpdate Object_keys session env t now st)
  = if JS.gt (Qabs (t - c_smoothTime env)) 0.5 then t else smoothTime st.
Proof.
  unfold handleTimeUpdate.
  destruct (Z.rem (Qfloor t) 5 =? 0)%Z;
    destruct (JS.gt (Qabs (t - c_smoothTime env)) 0.5); reflexivity.
Qed.

(** With a listener whose captured [smoothTime] is the current one, the
    update resets the smoothed clock exactly when the clocks are more
    than 0.5 apart. *)
Lemma handleTimeUpdate_fresh Object_keys session env t now st :
  c_smoothTime env = smoothTime st ->
  (0.5 < Qabs (t - smoothTime st) ->
   smoothTime (handleTimeUpdate Object_keys session env t now st) = t)
  /\ (Qabs (t - smoothTime st) <= 0.5 ->
      smoothTime (handleTimeUpdate Object_keys session env t now st)
      = smoothTime st).
Proof.
  intros Hfresh. rewrite handleTimeUpdate_smoothTime, Hfresh. unfold JS.gt.
  destruct (Qle_bool (Qabs (t - smoothTime st)) 0.5) eqn:E; cbn [negb].
  - apply Qle_bool_iff in E. split; [|done].
    intros Hlt. exfalso. apply (Qlt_not_le _ _ Hlt E).
  - split; [done|]. intros Hle. apply Qle_bool_iff in Hle. congruence.
Qed.

End PlayerFacts.

Section PlayerSamples.
Import History Player.
Local Open Scope Q_scope.

Lemma resume_only_after_5_seconds_witness :
  load (id Sample.session) (Sample.resumeAt 5 (Some 2%Z))
    = Some {| time := 5; segmentIndex := Some 2%Z; ts := 1000 |}
  /\ 5 <= 5
  /\ loadHistory Sample.session (initialState (Sample.resumeAt 5 (Some 2%Z)))
     = initialState (Sample.resumeAt 5 (Some 2%Z))
  /\ initialSeekTimeRef
       (loadHistory Sample.session
          (initialState (Sample.resumeAt (11 # 2) (Some 2%Z))))
     = Some (11 # 2).
Proof.
  split; [reflexivity|]. split; [discriminate|]. split; [|reflexivity].
  apply (proj2 (resume_only_after_5_seconds Sample.session
                  (Sample.resumeAt 5 (Some 2%Z)))
           {| time := 5; segmentIndex := Some 2%Z; ts := 1000 |}).
  - reflexivity.
  - discriminate.
Defined.

Lemma out_of_range_segment_ignored_witness :
  load (id Sample.session) (Sample.resumeAt 600 (Some 3%Z))
    = Some {| time := 600; segmentIndex := Some 3%Z; ts := 1000 |}
  /\ (Z.of_nat (length (segments Sample.session)) <= 3)%Z
  /\ loadHistory Sample.session
       (initialState (Sample.resumeAt 600 (Some 3%Z)))
     = initialState (Sample.resumeAt 600 (Some 3%Z)).
Proof.
  split; [reflexivity|]. split; [simpl; lia|].
  apply (proj1 (out_of_range_segment_ignored Sample.session
                  (Sample.resumeAt 600 (Some 3%Z)))
           {| time := 600; segmentIndex := Some 3%Z; ts := 1000 |}).
  - reflexivity.
  - right. exists 3%Z. split; [reflexivity|]. right. simpl. lia.
Defined.

(** C6, where the code departs from it.  The listener is created once
    per segment and compares against the [smoothTime] of the render
    that created it (0 on a fresh mount), not against the current
    smoothed clock.  While playing, a frame puts the smoothed clock at
    10; a position update at 10.25 is only 0.25 away, yet it resets the
    smoothed clock.  With the smoothed clock at 30, a position update
    at 0.25 is 29.75 away, yet it leaves the smoothed clock at 30. *)
Theorem handleTimeUpdate_uses_stale_smoothTime :
  let mounted := initialState None in
  let before1 := run Sample.ownKeys Sample.session mounted [Frame 10] in
  let after1 :=
    run Sample.ownKeys Sample.session mounted
      [Frame 10; TimeUpdate (41 # 4) 1000] in
  let before2 := run Sample.ownKeys Sample.session mounted [Frame 30] in
  let after2 :=
    run Sample.ownKeys Sample.session mounted
      [Frame 30; TimeUpdate (1 # 4) 1000] in
  (smoothTime before1 = 10
   /\ Qabs ((41 # 4) - smoothTime before1) <= 0.5
   /\ smoothTime after1 = 41 # 4
   /\ ~ smoothTime after1 == smoothTime before1)
  /\ (smoothTime before2 = 30
      /\ 0.5 < Qabs ((1 # 4) - smoothTime before2)
      /\ smoothTime after2 = 30
      /\ ~ smoothTime after2 == 1 # 4).
Proof.
  cbv zeta. repeat split; try reflexivity; try discriminate.
Qed.

End PlayerSamples.

(** ** Loading the comment log *)

Section CommentLogFacts.
Import Danmaku History Player Controls CommentLog.
Local Open Scope Q_scope.

Section Any.
Context {File : Type}.
Variable parseDanmakuXml : File -> string + list DanmakuItem.
Variable Object_keys : HistoryObject -> list string.
Variable session : StreamSession File.

(** A call of [loadDanmaku] that runs to its end writes the comment
    list and nothing else: a rejection leaves it empty. *)
Lemma loadDanmaku_resumed_writes (outcome : Promise) (st : State) :
  loadDanmaku_resumed outcome st
  = setDanmakuData (match outcome with inr items => items | inl _ => [] end)
      st.
Proof. destruct outcome; reflexivity. Qed.

(** With no other call suspended, the comment effect does what the
    error handling intends: without a log the list is empty at once;
    with a log that is rejected, the list is empty once the promise has
    settled, and nothing is left pending. *)
Lemma loadDanmaku_alone (segment : StreamSegment File) (st : State) :
  let p := loadDanmaku parseDanmakuXml segment
             {| p_state := st; p_promises := [] |} in
  (danmakuFile segment = None ->
   p = {| p_state := setDanmakuData [] st; p_promises := [] |})
  /\ (forall f,
         danmakuFile segment = Some f ->
         p = {| p_state := st; p_promises := [parseDanmakuXml f] |}
         /\ (forall e, parseDanmakuXml f = inl e ->
                       settle 0 p
                       = {| p_state := setDanmakuData [] st;
                            p_promises := [] |})).
Proof.
  cbv zeta. unfold loadDanmaku. split.
  - intros ->. reflexivity.
  - intros f ->. split; [reflexivity|]. intros e He.
    unfold settle. simpl. rewrite He. reflexivity.
Qed.

Lemma setDanmakuData_twice (a b : list DanmakuItem) (st : State) :
  setDanmakuData a (setDanmakuData b st) = setDanmakuData a st.
Proof. reflexivity. Qed.

Lemma loadEffect_player (render : State) (p : Pending) :
  setDanmakuData [] (p_state (loadEffect parseDanmakuXml session render p))
  = setDanmakuData [] (p_state p)
  /\ currentSegmentIndex
       (p_state (loadEffect parseDanmakuXml session render p))
     = currentSegmentIndex (p_state p).
Proof.
  unfold loadEffect, loadDanmaku.
  destruct (currentSegment session render) as [segment|]; [|done].
  destruct (danmakuFile segment); done.
Qed.

Lemma settle_player (n : nat) (p : Pending) :
  setDanmakuData [] (p_state (settle n p)) = setDanmakuData [] (p_state p).
Proof.
  unfold settle. destruct (p_promises p !! n) as [[e|items]|]; reflexivity.
Qed.

(** The handlers and the initialisation carry the comment list along
    and never read it. *)
Lemma act_setDanmakuData (a : Action) (items : list DanmakuItem)
    (st : State) (env : Closure) :
  act Object_keys session a (setDanmakuData items st, env)
  = (setDanmakuData items (fst (act Object_keys session a (st, env))),
     snd (act Object_keys session a (st, env))).
Proof.
  destruct a as [t now|idx t now|]; cbn [act].
  - unfold rerun, handleEnded.
    destruct (c_currentSegmentIndex env
              <? Z.of_nat (length (segments session)) - 1)%Z;
      cbn [currentSegmentIndex setIsPlaying setDanmakuData];
      match goal with |- context [(?x =? ?y)%Z] =>
        destruct (x =? y)%Z end; reflexivity.
  - destruct (idx <? length (segments session))%nat; [|reflexivity].
    unfold rerun.
    cbn [currentSegmentIndex setCurrentSegmentIndex setDanmakuData].
    destruct (Z.of_nat idx =? currentSegmentIndex st)%Z; reflexivity.
  - unfold onPlayerReady. cbn [initialSeekTimeRef setDanmakuData].
    destruct (initialSeekTimeRef st); reflexivity.
Qed.

Lemma setDanmakuData_same (st : State) :
  setDanmakuData (danmakuData st) st = st.
Proof. destruct st; reflexivity. Qed.

Lemma act_player (a : Action) (st1 st2 : State) (env : Closure) :
  setDanmakuData [] st1 = setDanmakuData [] st2 ->
  setDanmakuData [] (fst (act Object_keys session a (st1, env)))
  = setDanmakuData [] (fst (act Object_keys session a (st2, env)))
  /\ snd (act Object_keys session a (st1, env))
     = snd (act Object_keys session a (st2, env)).
Proof.
  intros H.
  rewrite <- (setDanmakuData_same st1), <- (setDanmakuData_same st2).
  rewrite <- (setDanmakuData_twice (danmakuData st1) [] st1).
  rewrite <- (setDanmakuData_twice (danmakuData st2) [] st2).
  rewrite H, !act_setDanmakuData. cbn [fst snd].
  rewrite !setDanmakuData_twice. done.
Qed.

Lemma opened_player raw t now :
  p_state (fst (CommentLog.opened parseDanmakuXml Object_keys session
                  raw t now))
  = fst (Controls.opened Object_keys session raw t now)
  /\ snd (CommentLog.opened parseDanmakuXml Object_keys session raw t now)
     = snd (Controls.opened Object_keys session raw t now).
Proof.
  unfold CommentLog.opened, Controls.opened, withState.
  set (st := loadHistory session (initialState raw)).
  assert (Hd : danmakuData st = []).
  { unfold st, loadHistory. cbn [storedHistory initialState].
    repeat case_match; reflexivity. }
  assert (He : forall render (q : State) ps,
             danmakuData q = [] ->
             p_state (loadEffect parseDanmakuXml session render
                        {| p_state := q; p_promises := ps |}) = q).
  { intros render q ps Hq. unfold loadEffect, loadDanmaku.
    destruct (currentSegment session render) as [segment|]; [|done].
    destruct (danmakuFile segment); [done|]. cbn [p_state].
    rewrite <- Hq. apply setDanmakuData_same. }
  rewrite (He _ _ _ Hd).
  destruct (currentSegmentIndex st =? currentSegmentIndex (initialState raw))%Z;
    cbn [fst snd p_state p_promises]; [done|].
  rewrite He; [done|].
  cbn [danmakuData saveOnCleanup setStoredHistory initPlayer fst]. exact Hd.
Qed.

(** Whatever promises settle and whenever, the player apart from the
    comment list is the one the actions alone produce: loading the
    comment log, failing or not, leaves video playback as it is. *)
Lemma replay_player raw t now (es : list Event) :
  setDanmakuData []
    (p_state (fst (replay parseDanmakuXml Object_keys session raw t now es)))
  = setDanmakuData []
      (fst (play Object_keys session raw t now (actions es)))
  /\ snd (replay parseDanmakuXml Object_keys session raw t now es)
     = snd (play Object_keys session raw t now (actions es)).
Proof.
  unfold replay, play.
  destruct (opened_player raw t now) as [H1 H2].
  assert (H0 : setDanmakuData []
                 (p_state (fst (CommentLog.opened parseDanmakuXml Object_keys
                                  session raw t now)))
               = setDanmakuData []
                   (fst (Controls.opened Object_keys session raw t now)))
    by (by rewrite H1).
  clear H1.
  revert H0 H2.
  generalize (CommentLog.opened parseDanmakuXml Object_keys session raw t now).
  generalize (Controls.opened Object_keys session raw t now).
  induction es as [|e es IH]; intros [st env] [p env'] H1 H2;
    cbn [fst snd] in H1, H2; subst env'; [done|].
  cbn [foldl actions flat_map]. destruct e as [a|n].
  - cbn [app foldl]. apply IH.
    + cbn [on].
      destruct (act_player a (p_state p) st env H1) as [Ha _].
      destruct (act Object_keys session a (p_state p, env)) as [st' env''].
      cbn [fst] in Ha.
      destruct (currentSegmentIndex st' =? currentSegmentIndex (p_state p))%Z;
        cbn [fst withState p_state].
      * exact Ha.
      * rewrite (proj1 (loadEffect_player _ _)). exact Ha.
    + cbn [on].
      destruct (act_player a (p_state p) st env H1) as [_ Ha].
      destruct (act Object_keys session a (p_state p, env)) as [st' env''].
      cbn [snd] in Ha.
      destruct (currentSegmentIndex st' =? currentSegmentIndex (p_state p))%Z;
        exact Ha.
  - cbn [app]. apply IH; cbn [on fst snd]; [|done].
    rewrite settle_player. exact H1.
Qed.

End Any.

(** C9, where the code departs from it.  The effect returns no cleanup
    and the end of [loadDanmaku] does not test which segment is
    current, so a promise that settles late writes the comment list of
    whatever segment is shown.
    - The session is opened on a stored position in its second segment,
      which has no comment log.  The effect of the first render has
      called the parser on the log of the first segment; the effect of
      the second render empties the list.  When the first promise
      settles, the second segment shows the comments of the first.
    - Without history, the user goes to the third segment, whose log
      the parser will reject, and back to the first before that
      promise has settled.  The log of the first segment is parsed and
      shown; then the rejection arrives and empties the list, although
      the log of the segment on screen is sound. *)
Theorem stale_loadDanmaku_writes_current_segment :
  let schedule :=
    replay Sample.parseDanmakuXml Sample.ownKeys Sample.session in
  let first := {| file := "a.flv"; danmakuFile := Some "a.xml" |} in
  let second := {| file := "b.flv"; danmakuFile := @None string |} in
  let resumed := Sample.resumeAt 600 (Some 1%Z) in
  let before1 := fst (schedule resumed 0 2000%Z []) in
  let after1 := fst (schedule resumed 0 2000%Z [Settles 0]) in
  let back :=
    [Settles 0; Does (Select 2 30 3000); Does (Select 0 5 4000);
     Settles 1] in
  let before2 := fst (schedule None 0 2000%Z back) in
  let after2 := fst (schedule None 0 2000%Z (back ++ [Settles 0])) in
  (currentSegment Sample.session (p_state before1) = Some second
   /\ danmakuData (p_state before1) = []
   /\ p_promises before1 = [Sample.parseDanmakuXml "a.xml"]
   /\ currentSegment Sample.session (p_state after1) = Some second
   /\ p_promises after1 = []
   /\ danmakuData (p_state after1) = [Sample.comment 1 "hi"])
  /\ (currentSegment Sample.session (p_state before2) = Some first
      /\ Sample.parseDanmakuXml "a.xml" = inr [Sample.comment 1 "hi"]
      /\ danmakuData (p_state before2) = [Sample.comment 1 "hi"]
      /\ p_promises before2 = [Sample.parseDanmakuXml "c.xml"]
      /\ Sample.parseDanmakuXml "c.xml" = inl "not well-formed"%string
      /\ currentSegment Sample.session (p_state after2) = Some first
      /\ p_promises after2 = []
      /\ danmakuData (p_state after2) = []).
Proof. cbv zeta. repeat split. Qed.

End CommentLogFacts.

(** * Further properties of the code *)

(** ** The overlay filter and the overlay render *)

Section OverlayMore.
Import Danmaku Overlay.
Local Open Scope Q_scope.

Lemma activeOverlayDanmaku_shown (s : Settings) (data : list DanmakuItem) (T : Q) :
  0 < speed s -> show s = true ->
  activeOverlayDanmaku s data T
  = List.map (withDuration s) (List.filter (exactWindow s T) data).
Proof.
  intros Hs Hshow. unfold activeOverlayDanmaku. rewrite Hshow. simpl.
  by apply two_pass_list.
Qed.

Lemma filter_filter_sublist {A : Type} (f g : A -> bool) (l : list A) :
  (forall a, f a = true -> g a = true) ->
  List.filter f l `sublist_of` List.filter g l.
Proof.
  intros Hfg. induction l as [|a l IH]; simpl; [constructor|].
  destruct (f a) eqn:Ef.
  - rewrite (Hfg a Ef). by constructor.
  - destruct (g a); [by constructor | done].
Qed.

Lemma map_item_withDuration (s : Settings) (l : list DanmakuItem) :
  List.map item (List.map (withDuration s) l) = l.
Proof. induction l as [|d l IH]; simpl; [done | by rewrite IH]. Qed.

(** X1. The overlay keeps the order of the comment list and shows each
    comment at most as often as the list holds it: the comments of the
    visible set form a sublist of [danmakuData], and each carries the
    duration computed from its own text. *)
Theorem activeOverlayDanmaku_keeps_order
    (s : Settings) (data : list DanmakuItem) (T : Q) :
  List.map item (activeOverlayDanmaku s data T) `sublist_of` data
  /\ Forall (fun x => x = withDuration s (item x))
            (activeOverlayDanmaku s data T).
Proof.
  unfold activeOverlayDanmaku. destruct (show s); simpl.
  - split.
    + induction data as [|d data IH]; simpl; [constructor|].
      destruct (pass1 s T d); simpl; [|by constructor].
      destruct (pass2 T (withDuration s d)); simpl; by constructor.
    + apply List.Forall_forall. intros x Hx.
      apply filter_In in Hx as [Hx _].
      apply in_map_iff in Hx as [d [<- _]]. reflexivity.
  - split; [apply sublist_nil_l | constructor].
Qed.

(** X2. A comment is on the overlay exactly from 0.5 s before its time
    stamp until its duration has elapsed, both ends included. *)
Theorem visible_exactly_during_lifetime
    (s : Settings) (data : list DanmakuItem) (T : Q) (d : DanmakuItem) :
  0 < speed s -> show s = true ->
  (In (withDuration s d) (activeOverlayDanmaku s data T)
   <-> In d data
       /\ time d - 0.5 <= T
       /\ T <= time d + duration (speed s) (len d)).
Proof.
  intros Hs Hshow. rewrite activeOverlayDanmaku_shown by done.
  rewrite in_map_iff. split.
  - intros (d' & Heq & Hin). injection Heq as -> _.
    apply filter_In in Hin as [Hin Hw]. split; [done|].
    rewrite <- pass2_exactWindow in Hw. unfold pass2 in Hw. simpl in Hw.
    apply andb_true_iff in Hw as [H1 H2].
    apply Qle_bool_iff in H1, H2. split; lra.
  - intros (Hin & H1 & H2). exists d. split; [done|].
    apply filter_In. split; [done|].
    rewrite <- pass2_exactWindow. unfold pass2. simpl.
    apply andb_true_iff. rewrite !Qle_bool_iff. split; lra.
Qed.

Lemma duration_antitone_speed (v1 v2 : Q) (l : Z) :
  0 < v1 -> v1 <= v2 -> duration v2 l <= duration v1 l.
Proof.
  intros H1 H12. destruct (intrinsicFactor_range l) as [Hlo _].
  unfold duration, BASE_DURATION. apply Qdiv_antitone; nra.
Qed.

(** X3. Raising the danmaku speed never brings an additional comment onto
    the overlay: at the same instant, the comments shown at the higher
    speed are among those shown at the lower one, in the same order. *)
Theorem faster_speed_shows_fewer
    (s1 s2 : Settings) (data : list DanmakuItem) (T : Q) :
  0 < speed s1 -> speed s1 <= speed s2 -> show s1 = show s2 ->
  List.map item (activeOverlayDanmaku s2 data T)
  `sublist_of` List.map item (activeOverlayDanmaku s1 data T).
Proof.
  intros H1 H12 Hshow. assert (H2 : 0 < speed s2) by lra.
  unfold activeOverlayDanmaku. rewrite <- Hshow.
  destruct (show s1); simpl; [|constructor].
  rewrite !two_pass_list, !map_item_withDuration by done.
  apply filter_filter_sublist. intros d.
  rewrite <- !pass2_exactWindow. unfold pass2. simpl.
  rewrite !andb_true_iff, !Qle_bool_iff.
  pose proof (duration_antitone_speed (speed s1) (speed s2) (len d) H1 H12).
  intros [Ha Hb]. split; lra.
Qed.

(** X4. The duration of a comment grows with the length of its text and
    stays between [16 / speed] and [16 / (0.75 * speed)]: a text of ten
    or more characters takes four thirds of the time of a one-character
    text to cross. *)
Theorem duration_by_length (v : Q) (l1 l2 : Z) :
  0 < v -> (l1 <= l2)%Z ->
  duration v l1 <= duration v l2
  /\ 16 / v <= duration v l1
  /\ duration v l1 <= 16 / (v * 0.75)
  /\ ((10 <= l1)%Z -> 0.75 * duration v l1 == duration v 1).
Proof.
  intros Hv Hl.
  destruct (intrinsicFactor_range l1) as [Hlo1 Hhi1].
  destruct (intrinsicFactor_range l2) as [Hlo2 Hhi2].
  assert (Hmono : intrinsicFactor l2 <= intrinsicFactor l1).
  { rewrite !intrinsicFactor_affine.
    assert (Hc : (clampedLen l1 <= clampedLen l2)%Z)
      by (unfold clampedLen; lia).
    rewrite Zle_Qle in Hc. lra. }
  unfold duration, BASE_DURATION. split; [|split; [|split]].
  - apply Qdiv_antitone; nra.
  - assert (E : 16 / v == 16 / (v * 1)) by (by rewrite Qmult_1_r).
    rewrite E. apply Qdiv_antitone; nra.
  - apply Qdiv_antitone; nra.
  - intros H10.
    assert (E10 : intrinsicFactor l1 == 0.75).
    { rewrite intrinsicFactor_affine.
      replace (clampedLen l1) with 10%Z by (unfold clampedLen; lia).
      reflexivity. }
    assert (E1 : intrinsicFactor 1 == 1) by reflexivity.
    rewrite E10, E1. field. lra.
Qed.

(** X5. While a comment is shown it moves leftwards at the constant rate
    of [200 / D] viewport-width percent per second. *)
Theorem currentX_moves_left (T1 T2 : Q) (x : Scheduled) :
  0 < actualDuration x -> T1 < T2 ->
  currentX T2 x == currentX T1 x - 200 * (T2 - T1) / actualDuration x
  /\ currentX T2 x < currentX T1 x.
Proof.
  intros HD HT.
  assert (E : currentX T2 x
              == currentX T1 x - 200 * (T2 - T1) / actualDuration x).
  { unfold currentX, progress, startX, endX. field. lra. }
  split; [exact E|]. rewrite E.
  assert (0 < 200 * (T2 - T1) / actualDuration x).
  { apply Qlt_shift_div_l; [exact HD|]. lra. }
  lra.
Qed.

(** X6. For a non-negative track index the vertical offset is one of the
    sixteen lanes 0, 6, ..., 90 percent, decided by the index modulo 16. *)
Theorem top_within_sixteen_lanes (x : Scheduled) :
  (0 <= trackIndex (item x))%Z ->
  (0 <= top x <= 90)%Z
  /\ (top x mod 6 = 0)%Z
  /\ top x = (6 * (trackIndex (item x) mod 16))%Z.
Proof.
  intros Hpos. unfold top. rewrite Z.rem_mod_nonneg by lia.
  pose proof (Z.mod_pos_bound (trackIndex (item x)) 16 ltac:(lia)).
  split; [lia|]. split; [|lia].
  rewrite Z.mul_comm. rewrite Z.mul_comm. apply Z.mod_mul. lia.
Qed.

End OverlayMore.

(** ** The chat sidebar *)

Section SidebarFacts.
Import Danmaku Sidebar.
Local Open Scope Q_scope.

Lemma visibleChatList_none_after (data : list DanmakuItem) (T : Q) :
  Forall (fun d => T < time d) data -> visibleChatList data T = [].
Proof.
  induction 1 as [|d data Hd _ IH]; [done|].
  unfold visibleChatList in *. simpl.
  destruct (Qle_bool (time d) T) eqn:E; [|exact IH].
  apply Qle_bool_iff in E. exfalso. apply (Qlt_not_le _ _ Hd E).
Qed.

(** X7. On a comment list sorted by time, the chat list is an initial
    segment of the list, everything after it is still in the future, and
    as the time advances the chat list only grows at its end. *)
Theorem visibleChatList_grows_at_the_end
    (data : list DanmakuItem) (T1 T2 : Q) :
  StronglySorted (fun a b => time a <= time b) data -> T1 <= T2 ->
  visibleChatList data T2 `prefix_of` data
  /\ Forall (fun d => T2 < time d)
            (drop (length (visibleChatList data T2)) data)
  /\ visibleChatList data T1 `prefix_of` visibleChatList data T2.
Proof.
  intros Hsorted HT. induction Hsorted as [|d data Hs IH Hd].
  - repeat split; [by exists [] | constructor | by exists []].
  - destruct IH as (IH1 & IH2 & IH3).
    assert (Hlater : forall T, T < time d -> Forall (fun d' => T < time d') data).
    { intros T HTd. eapply Forall_impl; [exact Hd|].
      simpl. intros d' Hd'. lra. }
    unfold visibleChatList in *. simpl.
    destruct (Qle_bool (time d) T2) eqn:E2.
    + apply Qle_bool_iff in E2. split; [by apply prefix_cons|].
      split; [exact IH2|].
      destruct (Qle_bool (time d) T1) eqn:E1; [by apply prefix_cons|].
      assert (H1 : T1 < time d).
      { apply Qnot_le_lt. intros H. apply Qle_bool_iff in H. congruence. }
      pose proof (visibleChatList_none_after data T1 (Hlater T1 H1)) as Hn1.
      unfold visibleChatList in Hn1. rewrite Hn1. apply prefix_nil.
    + assert (H2 : T2 < time d).
      { apply Qnot_le_lt. intros H. apply Qle_bool_iff in H. congruence. }
      pose proof (visibleChatList_none_after data T2 (Hlater T2 H2)) as Hnone.
      unfold visibleChatList in Hnone. rewrite Hnone. simpl.
      split; [apply prefix_nil|]. split; [constructor; [exact H2 | by apply Hlater]|].
      destruct (Qle_bool (time d) T1) eqn:E1.
      * apply Qle_bool_iff in E1. lra.
      * assert (H1 : T1 < time d) by lra.
        pose proof (visibleChatList_none_after data T1 (Hlater T1 H1)) as Hn1.
        unfold visibleChatList in Hn1. rewrite Hn1. apply prefix_nil.
Qed.

End SidebarFacts.

(** ** The clock display *)

Section FormatFacts.
Import Format.

Lemma Qfloor_div_pos (x : Q) (k : positive) :
  Qfloor (x / inject_Z (Z.pos k)) = (Qfloor x / Z.pos k)%Z.
Proof.
  destruct x as [a b]. unfold Qdiv, Qinv, Qmult, Qfloor, inject_Z. simpl.
  rewrite Z.mul_1_r, Pos2Z.inj_mul. by rewrite Z.div_div by lia.
Qed.

Lemma Qfloor_sub_Z (x : Q) (z : Z) :
  Qfloor (x - inject_Z z) = (Qfloor x - z)%Z.
Proof.
  destruct x as [a b]. unfold Qminus, Qplus, Qopp, Qfloor, inject_Z. simpl.
  rewrite Pos.mul_1_r, Z.mul_1_r.
  replace (a + - z * Z.pos b)%Z with (a + (- z) * Z.pos b)%Z by lia.
  rewrite Z.div_add by lia. lia.
Qed.

Lemma rem_nonneg (t : Q) (k : positive) :
  (0 <= t)%Q ->
  Qfloor (rem t (inject_Z (Z.pos k))) = (Qfloor t mod Z.pos k)%Z
  /\ forall j : positive,
       Qfloor (rem t (inject_Z (Z.pos k)) / inject_Z (Z.pos j))
       = (Qfloor t mod Z.pos k / Z.pos j)%Z.
Proof.
  intros Ht.
  assert (Hq : (0 <= t / inject_Z (Z.pos k))%Q).
  { apply Qle_shift_div_l; [reflexivity | lra]. }
  assert (E : (rem t (inject_Z (Z.pos k))
               == t - inject_Z (Z.pos k * (Qfloor t / Z.pos k)))%Q).
  { unfold rem, trunc. apply Qle_bool_iff in Hq. rewrite Hq.
    rewrite Qfloor_div_pos, inject_Z_mult. reflexivity. }
  assert (E1 : Qfloor (rem t (inject_Z (Z.pos k))) = (Qfloor t mod Z.pos k)%Z).
  { rewrite E, Qfloor_sub_Z. rewrite Z.mod_eq by lia. reflexivity. }
  split; [exact E1|]. intros j. by rewrite Qfloor_div_pos, E1.
Qed.

Lemma twoDigits_padStart (n : Z) :
  (0 <= n < 60)%Z ->
  JS.padStart 2 "0"%char (toString10 n) = twoDigits n.
Proof.
  intros Hn. rewrite <- (Z2Nat.id n) by lia.
  assert (Hk : Z.to_nat n < 60) by lia.
  generalize dependent (Z.to_nat n). clear. intros k Hk.
  do 60 (destruct k as [|k]; [reflexivity|]). lia.
Qed.

(** X8. For a finite non-negative time [formatTime] shows the whole seconds
    as minutes and seconds of two digits each, preceded by the hours
    when there is at least one; below one hour the text has exactly
    five characters. *)
Theorem formatTime_shows_whole_seconds (t : Q) :
  (0 <= t)%Q ->
  let n := Qfloor t in
  formatTime (Finite t)
  = String.append
      (if (3600 <=? n)%Z
       then String.append (toString10 (n / 3600)) ":"
       else EmptyString)
      (String.append (twoDigits (n / 60 mod 60))
         (String.append ":" (twoDigits (n mod 60))))
  /\ ((t < 3600)%Q -> String.length (formatTime (Finite t)) = 5).
Proof.
  intros Ht n.
  assert (Hn : (0 <= n)%Z).
  { unfold n. change 0%Z with (Qfloor 0). by apply Qfloor_resp_le. }
  destruct (rem_nonneg t 3600 Ht) as [_ Hm].
  destruct (rem_nonneg t 60 Ht) as [Hs _].
  assert (Eh : Qfloor (t / 3600) = (n / 3600)%Z) by apply (Qfloor_div_pos t 3600).
  assert (Em : Qfloor (rem t 3600 / 60) = (n / 60 mod 60)%Z).
  { change 3600%Q with (inject_Z (Z.pos 3600)).
    change 60%Q with (inject_Z (Z.pos 60)). rewrite Hm. fold n.
    Z.to_euclidean_division_equations. lia. }
  assert (Es : Qfloor (rem t 60) = (n mod 60)%Z) by exact Hs.
  assert (E : formatTime (Finite t)
              = String.append
                  (if (3600 <=? n)%Z
                   then String.append (toString10 (n / 3600)) ":"
                   else EmptyString)
                  (String.append (twoDigits (n / 60 mod 60))
                     (String.append ":" (twoDigits (n mod 60))))).
  { unfold formatTime. rewrite Eh, Em, Es.
    rewrite !twoDigits_padStart
      by (Z.to_euclidean_division_equations; lia).
    f_equal.
    destruct (Z.ltb_spec 0 (n / 3600)); destruct (Z.leb_spec 3600 n);
      try reflexivity; Z.to_euclidean_division_equations; lia. }
  split; [exact E|]. intros Hlt. rewrite E.
  assert (n < 3600)%Z.
  { pose proof (Qfloor_le t) as Hfl. fold n in Hfl.
    apply Z.lt_nge. intros Hge. rewrite Zle_Qle in Hge.
    change (inject_Z 3600) with 3600%Q in Hge. lra. }
  destruct (Z.leb_spec 3600 n); [lia | reflexivity].
Qed.

End FormatFacts.

(** ** The persisted settings *)

Section SettingsFacts.
Import Overlay SettingsStore.
Local Open Scope Q_scope.

(** X9. Saving the settings and loading them again gives back every field
    except the playback rate, which returns to 1, so that a reloaded
    player runs at normal rate unless the long press is held; a missing
    or unreadable stored value gives the defaults. *)
Theorem settings_reload_resets_playbackRate (s : Settings) :
  loadSettings (saveSettings s) = setPlaybackRate 1 s
  /\ appliedRate false (loadSettings (saveSettings s)) = 1
  /\ appliedRate true (loadSettings (saveSettings s)) = longPressRate s
  /\ saveSettings (loadSettings (saveSettings s)) = saveSettings s
  /\ loadSettings Absent = defaults
  /\ loadSettings Malformed = defaults.
Proof. repeat split. Qed.

End SettingsFacts.

(** ** More on the resume history *)

Section HistoryMore.
Import History.

Variable Object_keys : HistoryObject -> list string.
Hypothesis Object_keys_NoDup : forall h, NoDup (Object_keys h).
Hypothesis Object_keys_own :
  forall h k, k ∈ Object_keys h <-> is_Some (h !! k).

Lemma load_parsed (k : string) (raw : option HistoryObject) :
  load k raw = parsed raw !! k.
Proof. destruct raw; [done|]. simpl. by rewrite lookup_empty. Qed.

Lemma upsert_size_le sid now t seg raw :
  size (upsert sid now t seg raw) <= S (tracked raw)
  /\ (is_Some (load sid raw) -> size (upsert sid now t seg raw) = tracked raw).
Proof.
  assert (Ht : tracked raw = size (parsed raw)) by (by destruct raw).
  unfold upsert. rewrite load_parsed, Ht. split.
  - destruct (parsed raw !! sid) as [r|] eqn:E.
    + rewrite map_size_insert_Some by eauto. lia.
    + rewrite map_size_insert_None by done. lia.
  - intros Hs. by rewrite map_size_insert_Some.
Qed.

(** X10. A save never changes the record of another session: each other
    session is read back as before or not at all, and none is lost when
    the store held fewer than 100 sessions, or held at most 100 with the
    saved session among them. *)
Theorem save_leaves_other_sessions
    (session_id : string) (now : Z) (time : Q) (segmentIdx : Z)
    (raw : option HistoryObject) :
  let after := saveHistory Object_keys session_id now time segmentIdx raw in
  (forall k, k <> session_id ->
             load k after = load k raw \/ load k after = None)
  /\ (tracked raw < 100 ->
      forall k, k <> session_id -> load k after = load k raw)
  /\ (is_Some (load session_id raw) -> tracked raw <= 100 ->
      forall k, k <> session_id -> load k after = load k raw).
Proof.
  cbv zeta. unfold saveHistory.
  set (h := upsert session_id now time segmentIdx raw).
  assert (Hother : forall k, k <> session_id -> h !! k = load k raw).
  { intros k Hk. unfold h. rewrite upsert_lookup_ne by done.
    by rewrite load_parsed. }
  destruct (upsert_size_le session_id now time segmentIdx raw) as [Hsz Hsz'].
  fold h in Hsz, Hsz'.
  split; [|split].
  - intros k Hk. simpl.
    destruct (cleanup Object_keys h !! k) as [r|] eqn:E; [|by right].
    left.
    apply (cleanup_lookup_Some Object_keys Object_keys_NoDup Object_keys_own)
      in E.
    by rewrite <- Hother.
  - intros Hfew k Hk. simpl.
    rewrite (cleanup_small Object_keys Object_keys_NoDup Object_keys_own)
      by lia.
    by apply Hother.
  - intros Hin Hle k Hk. simpl.
    rewrite (cleanup_small Object_keys Object_keys_NoDup Object_keys_own)
      by (rewrite Hsz'; done).
    by apply Hother.
Qed.

End HistoryMore.

(** ** The handlers of the player controls *)

Section ControlsFacts.
Import History Player Controls.
Local Open Scope Q_scope.

Context {File : Type}.
Variable Object_keys : HistoryObject -> list string.
Variable session : StreamSession File.

(** A current listener: the segment index it closed over is the one of
    the state. *)
Let current (sc : State * Closure) : Prop :=
  (0 <= currentSegmentIndex (fst sc)
   < Z.of_nat (length (segments session)))%Z
  /\ c_currentSegmentIndex (snd sc) = currentSegmentIndex (fst sc).

Lemma rerun_current old t now before after :
  (0 <= currentSegmentIndex after < Z.of_nat (length (segments session)))%Z ->
  c_currentSegmentIndex old = currentSegmentIndex before ->
  current (rerun Object_keys session old t now before after).
Proof.
  intros Hrange Hold. unfold rerun, current.
  destruct (Z.eqb_spec (currentSegmentIndex after) (currentSegmentIndex before))
    as [E|E]; simpl; [split; [done | congruence] | done].
Qed.

(** X11. When a segment ends under a current listener, the player stops;
    unless it was the last segment it moves to the next one, which
    starts at time 0 and is sought to 0 when ready; on the last segment
    nothing else changes. *)
Theorem handleEnded_moves_to_next_segment (env : Closure) (st : State) :
  c_currentSegmentIndex env = currentSegmentIndex st ->
  (0 <= currentSegmentIndex st < Z.of_nat (length (segments session)))%Z ->
  let st' := handleEnded session env st in
  Player.isPlaying st' = false
  /\ (0 <= currentSegmentIndex st' < Z.of_nat (length (segments session)))%Z
  /\ ((currentSegmentIndex st < Z.of_nat (length (segments session)) - 1)%Z ->
      currentSegmentIndex st' = (currentSegmentIndex st + 1)%Z
      /\ startTime st' = 0
      /\ fst (onPlayerReady (fst (initPlayer st'))) = Some 0)
  /\ (currentSegmentIndex st = (Z.of_nat (length (segments session)) - 1)%Z ->
      st' = setIsPlaying false st).
Proof.
  intros Henv Hrange. cbv zeta. unfold handleEnded. rewrite Henv.
  change (currentSegmentIndex (setIsPlaying false st))
    with (currentSegmentIndex st).
  destruct (Z.ltb_spec (currentSegmentIndex st)
              (Z.of_nat (length (segments session)) - 1)) as [Hlt|Hge].
  - cbn [currentSegmentIndex Player.isPlaying setIsPlaying].
    split; [done|]. split; [lia|]. split; [done|]. intros H. lia.
  - cbn [currentSegmentIndex Player.isPlaying setIsPlaying].
    split; [done|]. split; [lia|]. split; [intros H; lia | done].
Qed.

(** X12. Whatever history is stored and whatever the user does (segments
    ending, segment buttons, the video becoming ready), the segment
    index designates a segment of a non-empty session and the listeners
    in place have closed over that very index. *)
Theorem segment_index_stays_in_range
    (raw : option HistoryObject) (videoEl_currentTime : Q) (now : Z)
    (acts : list Action) :
  segments session <> [] ->
  let sc := play Object_keys session raw videoEl_currentTime now acts in
  (0 <= currentSegmentIndex (fst sc)
   < Z.of_nat (length (segments session)))%Z
  /\ c_currentSegmentIndex (snd sc) = currentSegmentIndex (fst sc)
  /\ is_Some (currentSegment session (fst sc)).
Proof.
  intros Hne. cbv zeta.
  assert (Hlen : (0 < Z.of_nat (length (segments session)))%Z).
  { destruct (segments session); [done | simpl; lia]. }
  enough (Hcur : current (play Object_keys session raw videoEl_currentTime
                            now acts)).
  { destruct Hcur as [Hrange Henv]. split; [exact Hrange|].
    split; [exact Henv|]. unfold currentSegment.
    destruct (Z.ltb_spec (currentSegmentIndex
                (fst (play Object_keys session raw videoEl_currentTime now acts))) 0);
      [lia|].
    apply lookup_lt_is_Some. lia. }
  unfold play. induction acts as [|a acts IH] using rev_ind.
  - simpl. unfold opened.
    destruct (loadHistory_cases session raw)
      as [E|(record & idx & _ & _ & _ & Hrange & E)]; cbv zeta in E;
      rewrite E; simpl.
    + split; simpl; [lia | done].
    + destruct (Z.eqb_spec idx 0) as [->|Hidx]; simpl; split; simpl;
        (lia || done).
  - rewrite foldl_app. simpl.
    destruct (foldl (fun sc a => act Object_keys session a sc)
                (opened Object_keys session raw videoEl_currentTime now) acts)
      as [st env].
    destruct IH as [Hrange Henv]. simpl in Hrange, Henv.
    destruct a as [t n|idx t n|]; simpl.
    + apply rerun_current; [|done].
      unfold handleEnded. rewrite Henv.
      change (currentSegmentIndex (setIsPlaying false st))
        with (currentSegmentIndex st).
      destruct (Z.ltb_spec (currentSegmentIndex st)
                  (Z.of_nat (length (segments session)) - 1));
        cbn [currentSegmentIndex setIsPlaying]; lia.
    + destruct (Nat.ltb_spec idx (length (segments session))).
      * apply rerun_current; [simpl; lia | done].
      * split; done.
    + unfold onPlayerReady.
      destruct (initialSeekTimeRef st); split; done.
Qed.

(** X13. Opening a session whose stored position lies in a later segment
    resumes there, and on the way the cleanup of the first
    initialisation writes the position of the video element under
    segment 0 over the stored record. *)
Theorem resume_overwrites_stored_position
    (Object_keys_NoDup : forall h, NoDup (Object_keys h))
    (Object_keys_own : forall h k, k ∈ Object_keys h <-> is_Some (h !! k))
    (raw : option HistoryObject) (record : PlaybackHistoryRecord)
    (idx : Z) (videoEl_currentTime : Q) (now : Z) :
  load (id session) raw = Some record ->
  segmentIndex record = Some idx ->
  5 < time record ->
  (0 < idx < Z.of_nat (length (segments session)))%Z ->
  (size (savedSince (id session) now raw) < 100)%nat ->
  let st := fst (opened Object_keys session raw videoEl_currentTime now) in
  currentSegmentIndex st = idx
  /\ currentTime st = time record
  /\ smoothTime st = time record
  /\ initialSeekTimeRef st = Some (time record)
  /\ load (id session) (storedHistory st)
     = Some {| time := videoEl_currentTime;
               segmentIndex := Some 0%Z;
               ts := now |}.
Proof.
  intros Hrec Hidx Hgt Hrange Hfew. cbv zeta. unfold opened.
  destruct (loadHistory_cases session raw)
    as [E|(record' & idx' & Hrec' & Hidx' & _ & _ & E)]; cbv zeta in E.
  - exfalso. revert E. unfold loadHistory. simpl storedHistory.
    unfold load in Hrec. destruct raw as [history|]; [|done].
    rewrite Hrec, Hidx. unfold JS.gt.
    destruct (Qle_bool (time record) 5) eqn:Et.
    { apply Qle_bool_iff in Et. exfalso. apply (Qlt_not_le _ _ Hgt Et). }
    simpl negb. cbv iota.
    destruct (Z.leb_spec 0 idx); [|lia].
    destruct (Z.ltb_spec idx (Z.of_nat (length (segments session)))); [|lia].
    simpl. intros E. apply (f_equal currentSegmentIndex) in E. simpl in E. lia.
  - rewrite Hrec in Hrec'. injection Hrec' as <-.
    rewrite Hidx in Hidx'. injection Hidx' as <-.
    rewrite E. simpl.
    destruct (Z.eqb_spec idx 0); [lia|]. simpl.
    repeat split.
    apply (upsert_survives Object_keys Object_keys_NoDup Object_keys_own).
    exact Hfew.
Qed.

(** X14. A seek leaves both clocks and the video element at the sought time
    and stores it under the current segment.  Opening the session again
    on that store resumes in that segment at that time when the time is
    beyond 5 seconds; a sought time within the first 5 seconds of any
    segment is not resumed, and the session opens on segment 0. *)
Theorem seek_then_reopen
    (Object_keys_NoDup : forall h, NoDup (Object_keys h))
    (Object_keys_own : forall h k, k ∈ Object_keys h <-> is_Some (h !! k))
    (time : Q) (now : Z) (m : Mounted) :
  (0 <= currentSegmentIndex (player m)
   < Z.of_nat (length (segments session)))%Z ->
  (size (savedSince (id session) now (storedHistory (player m))) < 100)%nat ->
  let m' := handleSeek Object_keys session time now m in
  let reopened :=
    loadHistory session (initialState (storedHistory (player m'))) in
  currentTime (player m') = time
  /\ smoothTime (player m') = time
  /\ (forall el, videoRef m' = Some el -> el_currentTime el = time)
  /\ (5 < time ->
      currentSegmentIndex reopened = currentSegmentIndex (player m)
      /\ initialSeekTimeRef reopened = Some time)
  /\ (time <= 5 ->
      currentSegmentIndex reopened = 0%Z
      /\ initialSeekTimeRef reopened = None).
Proof.
  intros Hrange Hfew. cbv zeta.
  assert (Hstored :
    storedHistory (player (handleSeek Object_keys session time now m))
    = saveHistory Object_keys (id session) now time
        (currentSegmentIndex (player m)) (storedHistory (player m)))
    by reflexivity.
  assert (Hrec :
    cleanup Object_keys
      (upsert (id session) now time (currentSegmentIndex (player m))
         (storedHistory (player m))) !! id session
    = Some {| History.time := time;
              segmentIndex := Some (currentSegmentIndex (player m));
              ts := now |})
    by (by apply (upsert_survives Object_keys Object_keys_NoDup Object_keys_own)).
  split; [reflexivity|]. split; [reflexivity|]. split.
  { intros el. simpl. destruct (videoRef m); [|done].
    intros [= <-]. reflexivity. }
  rewrite Hstored. unfold loadHistory, saveHistory. simpl storedHistory.
  cbv beta iota. rewrite Hrec. simpl History.time. simpl segmentIndex. unfold JS.gt.
  split.
  - intros Hgt. destruct (Qle_bool time 5) eqn:Et.
    { apply Qle_bool_iff in Et. exfalso. apply (Qlt_not_le _ _ Hgt Et). }
    simpl negb. cbv iota.
    destruct (Z.leb_spec 0 (currentSegmentIndex (player m))); [|lia].
    destruct (Z.ltb_spec (currentSegmentIndex (player m))
                (Z.of_nat (length (segments session)))); [|lia].
    split; reflexivity.
  - intros Hle. apply Qle_bool_iff in Hle. rewrite Hle. split; reflexivity.
Qed.

End ControlsFacts.

Section VolumeFacts.
Import Controls.
Local Open Scope Q_scope.

(** X15. In every state of the player, muted or not, the volume of the
    element follows the cells -- 0 when muted, the volume cell
    otherwise -- after each of the three writers.  Its [muted] flag does
    not: after the mute button, moving the slider to a non-zero value
    clears [isMuted] but leaves the element muted, so nothing is heard
    until the mute button is pressed twice more. *)
Theorem volume_slider_does_not_unmute (m : Mounted) :
  let follows m' :=
    forall el', videoRef m' = Some el' ->
                el_volume el' == if isMuted m' then 0 else volume m' in
  follows (applyVolume m)
  /\ follows (toggleMute m)
  /\ (forall v', follows (handleVolumeChange v' m))
  /\ (forall v,
         is_Some (videoRef m) -> isMuted m = false -> ~ v == 0 ->
         (let m' := handleVolumeChange v (toggleMute m) in
          isMuted m' = false
          /\ volume m' = v
          /\ is_Some (videoRef m')
          /\ forall el', videoRef m' = Some el' ->
                         el_muted el' = true /\ audible el' = 0)
         /\ (let m' :=
               toggleMute (toggleMute (handleVolumeChange v (toggleMute m))) in
             isMuted m' = false
             /\ is_Some (videoRef m')
             /\ forall el', videoRef m' = Some el' -> audible el' = v)).
Proof.
  cbv zeta.
  split; [|split; [|split]].
  - unfold applyVolume. intros el'. cbn [videoRef isMuted volume].
    destruct (videoRef m); [|done]. intros [= <-]. reflexivity.
  - unfold toggleMute. intros el'.
    destruct (videoRef m) eqn:Hel.
    + cbn [videoRef isMuted volume]. intros [= <-]. cbn [el_volume].
      reflexivity.
    + rewrite Hel. done.
  - intros v' el'. unfold handleVolumeChange. cbn [videoRef isMuted volume].
    destruct (videoRef m); [|done]. intros [= <-]. cbn [el_volume].
    destruct (Qeq_bool v' 0) eqn:E; [by apply Qeq_bool_iff in E | reflexivity].
  - intros v [el Hel] Hmuted Hv.
    assert (Hvb : Qeq_bool v 0 = false).
    { destruct (Qeq_bool v 0) eqn:E; [|done].
      apply Qeq_bool_iff in E. contradiction. }
    unfold applyVolume, toggleMute, handleVolumeChange, audible.
    rewrite Hel, Hmuted. simpl. rewrite Hvb. simpl.
    split.
    + split; [done|]. split; [done|]. split; [eauto|]. by intros el' [= <-].
    + split; [done|]. split; [eauto|]. by intros el' [= <-].
Qed.

End VolumeFacts.

(** ** Inline emotes *)

Section EmotesFacts.
Import Emotes.
Local Arguments String.append !s1 s2 : simpl nomatch.

Lemma append_empty_r (s : string) : String.append s EmptyString = s.
Proof. induction s as [|c s IH]; simpl; [done | by rewrite IH]. Qed.

Lemma append_assoc' (a b c : string) :
  String.append (String.append a b) c = String.append a (String.append b c).
Proof. induction a as [|x a IH]; simpl; [done | by rewrite IH]. Qed.

Lemma prefix_split (k s : string) :
  String.prefix k s = true -> exists tail, s = String.append k tail.
Proof.
  revert s. induction k as [|c k IH]; intros s H.
  - by exists s.
  - destruct s as [|c' s]; simpl in H; [done|].
    destruct (Ascii.ascii_dec c c') as [->|]; [|done].
    destruct (IH s H) as [tail ->]. by exists tail.
Qed.

Lemma append_same_length (a b ta tb : string) :
  String.length a = String.length b ->
  String.append a ta = String.append b tb -> a = b.
Proof.
  revert b. induction a as [|x a IH]; intros [|y b] Hlen Heq;
    simpl in *; try done.
  injection Heq as -> Heq. f_equal. apply IH; [lia | done].
Qed.

Lemma firstMatch_Some (keys : list string) (rest k : string) :
  firstMatch keys rest = Some k ->
  In k keys /\ exists tail, rest = String.append k tail.
Proof.
  intros H. apply find_some in H as [Hin Hp].
  split; [done | by apply prefix_split].
Qed.

Lemma splitFrom_joined (keys : list string) (rest : string) :
  forall text skip pre tail,
    rest = String.append pre tail -> String.length pre = skip ->
    joined (splitFrom keys text skip rest) = String.append text tail.
Proof.
  induction rest as [|c rest IH]; intros text skip pre tail Hrest Hlen.
  - destruct pre; [|done]. simpl in Hrest. subst tail. simpl.
    by rewrite !append_empty_r.
  - destruct skip as [|n].
    + destruct pre; [|done]. simpl in Hrest. subst tail.
      cbn [splitFrom].
      destruct (firstMatch keys (String c rest)) as [k|] eqn:Ek.
      * apply firstMatch_Some in Ek as [_ [tail Hk]].
        destruct k as [|x k]; cbn [String.length].
        -- destruct text as [|y text].
           ++ rewrite (IH _ 0 EmptyString rest) by done. reflexivity.
           ++ cbn [joined foldr].
              change (foldr String.append EmptyString ?l) with (joined l).
              rewrite (IH _ 0 EmptyString rest) by done. reflexivity.
        -- simpl in Hk. injection Hk as <- Hk.
           cbn [joined foldr].
           change (foldr String.append EmptyString ?l) with (joined l).
           rewrite (IH _ (String.length k) k tail) by done.
           simpl. by rewrite Hk.
      * rewrite (IH _ 0 EmptyString rest) by done.
        rewrite append_assoc'. reflexivity.
    + destruct pre as [|x pre]; [done|]. simpl in Hrest, Hlen.
      injection Hrest as <- Hrest. cbn [splitFrom].
      apply (IH _ n pre tail); [done | lia].
Qed.

(** X16. Emote substitution loses nothing: whatever the emote codes are, the
    parts [DanmakuContent] renders, put back together, are the content
    of the comment. *)
Theorem parts_joined (keys : list string) (content : string) :
  joined (parts keys content) = content.
Proof.
  unfold parts. destruct keys as [|k keys]; [apply append_empty_r|].
  unfold split. destruct content as [|c content].
  - by destruct (firstMatch _ _).
  - by rewrite (splitFrom_joined _ _ _ 0 EmptyString (String c content)).
Qed.

Lemma splitFrom_ext (keys1 keys2 : list string) :
  (forall rest, firstMatch keys1 rest = firstMatch keys2 rest) ->
  forall rest text skip,
    splitFrom keys1 text skip rest = splitFrom keys2 text skip rest.
Proof.
  intros Hext. induction rest as [|c rest IH]; intros text skip; [done|].
  cbn [splitFrom]. destruct skip; [|apply IH].
  rewrite Hext. destruct (firstMatch keys2 (String c rest)) as [k|]; [|apply IH].
  destruct (String.length k); [|by rewrite IH].
  destruct text; by rewrite IH.
Qed.

Lemma byLength_perm (keys : list string) : byLength keys ≡ₚ keys.
Proof. exact (sort_perm (fun k => Z.of_nat (String.length k)) keys). Qed.

Lemma byLength_sorted (keys : list string) :
  StronglySorted (fun a b => String.length b <= String.length a)
                 (byLength keys).
Proof.
  pose proof (sort_sorted (fun k => Z.of_nat (String.length k)) keys) as H.
  change (StronglySorted
            (fun a b => (Z.of_nat (String.length b)
                         <= Z.of_nat (String.length a))%Z)
            (byLength keys)) in H.
  induction H as [|x l Hs IH Hx]; constructor; [exact IH|].
  eapply Forall_impl; [exact Hx|]. simpl. intros b Hb. lia.
Qed.

Lemma find_longest (p : string -> bool) (l : list string) (k : string) :
  StronglySorted (fun a b => String.length b <= String.length a) l ->
  List.find p l = Some k ->
  forall k', In k' l -> p k' = true -> String.length k' <= String.length k.
Proof.
  induction 1 as [|x l Hs IH Hx]; [done|]. simpl.
  destruct (p x) eqn:Ex.
  - intros [= <-] k' [<-|Hin] Hp; [lia|].
    rewrite Forall_forall in Hx. apply Hx. by apply list_elem_of_In.
  - intros Hk k' [<-|Hin] Hp; [congruence | by apply IH].
Qed.

Lemma firstMatch_byLength_perm (keys1 keys2 : list string) (rest : string) :
  keys1 ≡ₚ keys2 ->
  firstMatch (byLength keys1) rest = firstMatch (byLength keys2) rest.
Proof.
  intros Hperm.
  assert (Hp : byLength keys1 ≡ₚ byLength keys2).
  { rewrite !byLength_perm. exact Hperm. }
  pose proof (byLength_sorted keys1) as Hs1.
  pose proof (byLength_sorted keys2) as Hs2.
  unfold firstMatch.
  destruct (List.find _ (byLength keys1)) as [k1|] eqn:E1;
    destruct (List.find _ (byLength keys2)) as [k2|] eqn:E2; [| | |done].
  - pose proof (find_some _ _ E1) as [Hin1 Hp1].
    pose proof (find_some _ _ E2) as [Hin2 Hp2].
    assert (Hin12 : In k1 (byLength keys2)).
    { apply list_elem_of_In. rewrite <- Hp. by apply list_elem_of_In. }
    assert (Hin21 : In k2 (byLength keys1)).
    { apply list_elem_of_In. rewrite Hp. by apply list_elem_of_In. }
    pose proof (find_longest _ _ _ Hs1 E1 k2 Hin21 Hp2).
    pose proof (find_longest _ _ _ Hs2 E2 k1 Hin12 Hp1).
    apply prefix_split in Hp1 as [t1 Ht1]. apply prefix_split in Hp2 as [t2 Ht2].
    f_equal. apply (append_same_length k1 k2 t1 t2); [lia|].
    congruence.
  - exfalso. pose proof (find_some _ _ E1) as [Hin1 Hp1].
    rewrite (find_none _ _ E2 k1) in Hp1; [done|].
    apply list_elem_of_In. rewrite <- Hp. by apply list_elem_of_In.
  - exfalso. pose proof (find_some _ _ E2) as [Hin2 Hp2].
    rewrite (find_none _ _ E1 k2) in Hp2; [done|].
    apply list_elem_of_In. rewrite Hp. by apply list_elem_of_In.
Qed.

(** X17. Where an emote code starts, the code replaced is the longest one
    that fits; hence the parts do not depend on the order in which the
    emote map enumerates its codes. *)
Theorem parts_longest_match (keys1 keys2 : list string) (content : string) :
  keys1 ≡ₚ keys2 ->
  parts keys1 content = parts keys2 content
  /\ (forall rest k,
         firstMatch (byLength keys1) rest = Some k ->
         In k keys1
         /\ String.prefix k rest = true
         /\ forall k', In k' keys1 -> String.prefix k' rest = true ->
                       String.length k' <= String.length k).
Proof.
  intros Hperm. split.
  - unfold parts. destruct keys1 as [|a keys1], keys2 as [|b keys2].
    + done.
    + by apply Permutation_nil_cons in Hperm.
    + symmetry in Hperm. by apply Permutation_nil_cons in Hperm.
    + unfold split.
      rewrite (firstMatch_byLength_perm _ _ EmptyString Hperm).
      destruct content; [done|].
      apply splitFrom_ext. intros rest.
      by apply firstMatch_byLength_perm.
  - intros rest k Hk. unfold firstMatch in Hk.
    pose proof (find_some _ _ Hk) as [Hin Hp].
    assert (Hkeys : forall x, In x (byLength keys1) <-> In x keys1).
    { intros x. rewrite <- !list_elem_of_In. by rewrite byLength_perm. }
    split; [by apply Hkeys|]. split; [done|].
    intros k' Hin' Hp'.
    exact (find_longest _ _ _ (byLength_sorted keys1) Hk k'
             (proj2 (Hkeys k') Hin') Hp').
Qed.

End EmotesFacts.

(** ** Navigation *)

Section AppFacts.
Import App.
Context {StreamerProfile StreamSession : Type}.
Implicit Types (n : Nav StreamerProfile StreamSession).

Let reachable n : Prop :=
  match viewState n with
  | HOME => True
  | STREAMER => is_Some (selectedStreamer n)
  | PLAYER => is_Some (selectedSession n) /\ is_Some (selectedStreamer n)
  end.

Lemma click_reachable n (c : Click StreamerProfile StreamSession) :
  reachable n -> reachable (click n c).
Proof.
  unfold reachable, click, render.
  destruct n as [[| |] [s|] [x|]]; simpl; destruct c; simpl;
    intros H; try done; try (by destruct H); eauto.
Qed.

(** X18. Whatever is clicked, some screen is shown, and the player is only
    shown with a streamer selected, so that its back button leads to the
    page of that streamer. *)
Theorem navigation_always_shows_a_screen
    (cs : list (Click StreamerProfile StreamSession)) :
  render (clicks cs) <> Nothing
  /\ (forall session,
         render (clicks cs) = PlayerView session ->
         exists streamer,
           selectedStreamer (clicks cs) = Some streamer
           /\ render (click (clicks cs) Back) = StreamerPage streamer).
Proof.
  assert (Hreach : reachable (clicks cs)).
  { unfold clicks. induction cs as [|c cs IH] using rev_ind; [done|].
    rewrite foldl_app. simpl. by apply click_reachable. }
  revert Hreach. generalize (clicks cs). intros n Hreach.
  unfold reachable, render, click in *.
  destruct n as [[| |] [s|] [x|]]; simpl in *; split; try done;
    try (by destruct Hreach as [? []]); try (by destruct Hreach as [[] ?]);
    try (by destruct Hreach).
  - intros session [= <-]. exists s. split; reflexivity.
Qed.

End AppFacts.

(** ** A pending seek target and the segment buttons *)

Section PendingSeek.
Import History Player Controls.
Local Open Scope Q_scope.

Context {File : Type}.
Variable Object_keys : HistoryObject -> list string.
Variable session : StreamSession File.

Lemma opened_resumed raw record idx t now :
  load (id session) raw = Some record ->
  segmentIndex record = Some idx ->
  5 < time record ->
  (0 <= idx < Z.of_nat (length (segments session)))%Z ->
  let st := fst (opened Object_keys session raw t now) in
  currentSegmentIndex st = idx
  /\ currentTime st = time record
  /\ initialSeekTimeRef st = Some (time record).
Proof.
  intros Hrec Hidx Hgt Hrange. cbv zeta. unfold opened.
  assert (E : loadHistory session (initialState raw)
              = resumeAt idx (time record) (initialState raw)).
  { unfold loadHistory. simpl storedHistory.
    unfold load in Hrec. destruct raw as [history|]; [|done].
    rewrite Hrec, Hidx. unfold JS.gt.
    destruct (Qle_bool (time record) 5) eqn:Et.
    { apply Qle_bool_iff in Et. exfalso. apply (Qlt_not_le _ _ Hgt Et). }
    simpl negb. cbv iota.
    destruct (Z.leb_spec 0 idx); [|lia].
    by destruct (Z.ltb_spec idx (Z.of_nat (length (segments session))));
      [|lia]. }
  rewrite E. simpl.
  destruct (Z.eqb_spec idx 0); simpl; repeat split; done.
Qed.

Lemma act_Select_other (st : State) (env : Closure) (j : nat) t now :
  (j < length (segments session))%nat ->
  Z.of_nat j <> currentSegmentIndex st ->
  let st' := fst (act Object_keys session (Select j t now) (st, env)) in
  currentSegmentIndex st' = Z.of_nat j
  /\ currentTime st' = startTime st
  /\ smoothTime st' = startTime st
  /\ initialSeekTimeRef st' = initialSeekTimeRef st.
Proof.
  intros Hj Hne. cbv zeta. unfold act.
  destruct (Nat.ltb_spec j (length (segments session))); [|lia].
  unfold rerun. simpl currentSegmentIndex.
  destruct (Z.eqb_spec (Z.of_nat j) (currentSegmentIndex st)); [congruence|].
  repeat split.
Qed.

(** X19. A seek target taken from the stored history stays pending until the
    video reports ready.  If the user picks another segment first, that
    segment starts at the stored time and is sought to it when ready; if
    the video was ready first, the segment picked starts at 0. *)
Theorem pending_seek_goes_to_the_segment_picked
    (raw : option HistoryObject) (record : PlaybackHistoryRecord)
    (idx : Z) (j : nat) (t t' : Q) (now now' : Z) :
  load (id session) raw = Some record ->
  segmentIndex record = Some idx ->
  5 < time record ->
  (0 <= idx < Z.of_nat (length (segments session)))%Z ->
  (j < length (segments session))%nat ->
  Z.of_nat j <> idx ->
  (let st := fst (play Object_keys session raw t now [Select j t' now']) in
   currentSegmentIndex st = Z.of_nat j
   /\ currentTime st = time record
   /\ smoothTime st = time record
   /\ fst (onPlayerReady st) = Some (time record))
  /\ (let st := fst (play Object_keys session raw t now
                      [Ready; Select j t' now']) in
      currentSegmentIndex st = Z.of_nat j
      /\ currentTime st = 0
      /\ smoothTime st = 0
      /\ fst (onPlayerReady st) = None).
Proof.
  intros Hrec Hidx Hgt Hrange Hj Hne.
  destruct (opened_resumed raw record idx t now Hrec Hidx Hgt Hrange)
    as (Hi & Ht & Href).
  unfold play. simpl foldl.
  destruct (opened Object_keys session raw t now) as [st env].
  simpl in Hi, Ht, Href. cbv zeta. split.
  - destruct (act_Select_other st env j t' now' Hj ltac:(congruence))
      as (E1 & E2 & E3 & E4).
    unfold startTime in E2, E3. rewrite Href in E2, E3.
    split; [exact E1|]. split; [exact E2|]. split; [exact E3|].
    unfold onPlayerReady. by rewrite E4, Href.
  - replace (act Object_keys session Ready (st, env))
      with (snd (onPlayerReady st), env) by reflexivity.
    assert (Hready : currentSegmentIndex (snd (onPlayerReady st)) = idx
                     /\ initialSeekTimeRef (snd (onPlayerReady st)) = None).
    { unfold onPlayerReady. rewrite Href. by split. }
    destruct Hready as [Hi' Href'].
    destruct (act_Select_other (snd (onPlayerReady st)) env j t' now' Hj
                ltac:(congruence)) as (E1 & E2 & E3 & E4).
    unfold startTime in E2, E3. rewrite Href' in E2, E3.
    split; [exact E1|]. split; [exact E2|]. split; [exact E3|].
    unfold onPlayerReady at 1. by rewrite E4, Href'.
Qed.

End PendingSeek.

(** ** The further properties on sample inputs *)

Section MoreSamples.
Import Danmaku Overlay History Player Controls.
Local Open Scope Q_scope.

Lemma visible_exactly_during_lifetime_witness :
  0 < speed (Sample.settings 1)
  /\ show (Sample.settings 1) = true
  /\ In (withDuration (Sample.settings 1) (Sample.comment 12 "hello"))
        (activeOverlayDanmaku (Sample.settings 1)
           [Sample.comment 1 "a"; Sample.comment 12 "hello"] 20).
Proof.
  split; [reflexivity|]. split; [reflexivity|].
  apply (proj2 (visible_exactly_during_lifetime (Sample.settings 1)
                  [Sample.comment 1 "a"; Sample.comment 12 "hello"] 20
                  (Sample.comment 12 "hello") eq_refl eq_refl)).
  split; [right; left; reflexivity|]. split; by vm_compute.
Defined.

Lemma faster_speed_shows_fewer_witness :
  0 < speed (Sample.settings 1)
  /\ speed (Sample.settings 1) <= speed (Sample.settings 2)
  /\ List.map item
       (activeOverlayDanmaku (Sample.settings 2)
          [Sample.comment 5 "a"; Sample.comment 15 "b"] 20)
     `sublist_of`
     List.map item
       (activeOverlayDanmaku (Sample.settings 1)
          [Sample.comment 5 "a"; Sample.comment 15 "b"] 20).
Proof.
  split; [reflexivity|]. split; [by vm_compute|].
  apply (faster_speed_shows_fewer (Sample.settings 1) (Sample.settings 2)
           [Sample.comment 5 "a"; Sample.comment 15 "b"] 20).
  - reflexivity.
  - by vm_compute.
  - reflexivity.
Defined.

Lemma duration_by_length_witness :
  0 < 2 /\ (3 <= 12)%Z
  /\ duration 2 3 <= duration 2 12
  /\ 0.75 * duration 2 12 == duration 2 1.
Proof.
  split; [reflexivity|]. split; [lia|].
  destruct (duration_by_length 2 3 12) as (H1 & _ & _ & _);
    [reflexivity | lia |].
  destruct (duration_by_length 2 12 12) as (_ & _ & _ & H4);
    [reflexivity | lia |].
  split; [exact H1 | apply H4; lia].
Defined.

Lemma currentX_moves_left_witness :
  0 < actualDuration (withDuration (Sample.settings 1) (Sample.comment 10 "a"))
  /\ 12 < 18
  /\ currentX 18 (withDuration (Sample.settings 1) (Sample.comment 10 "a"))
     < currentX 12 (withDuration (Sample.settings 1) (Sample.comment 10 "a")).
Proof.
  split; [reflexivity|]. split; [reflexivity|].
  apply (currentX_moves_left 12 18
           (withDuration (Sample.settings 1) (Sample.comment 10 "a")));
    reflexivity.
Defined.

Lemma top_within_sixteen_lanes_witness :
  (0 <= trackIndex (item (withDuration (Sample.settings 1)
                            (Sample.comment 10 "a"))))%Z
  /\ (0 <= top (withDuration (Sample.settings 1) (Sample.comment 10 "a"))
      <= 90)%Z.
Proof.
  split; [simpl; lia|].
  apply (top_within_sixteen_lanes
           (withDuration (Sample.settings 1) (Sample.comment 10 "a"))).
  simpl. lia.
Defined.

Lemma visibleChatList_grows_at_the_end_witness :
  StronglySorted (fun a b => Danmaku.time a <= Danmaku.time b)
    [Sample.comment 1 "a"; Sample.comment 3 "b"; Sample.comment 12 "c"]
  /\ 2 <= 5
  /\ Sidebar.visibleChatList
       [Sample.comment 1 "a"; Sample.comment 3 "b"; Sample.comment 12 "c"] 2
     `prefix_of`
     Sidebar.visibleChatList
       [Sample.comment 1 "a"; Sample.comment 3 "b"; Sample.comment 12 "c"] 5.
Proof.
  assert (Hs : StronglySorted (fun a b => Danmaku.time a <= Danmaku.time b)
                 [Sample.comment 1 "a"; Sample.comment 3 "b";
                  Sample.comment 12 "c"]).
  { repeat constructor; by vm_compute. }
  split; [exact Hs|]. split; [by vm_compute|].
  apply (visibleChatList_grows_at_the_end _ 2 5 Hs). by vm_compute.
Defined.

Lemma formatTime_shows_whole_seconds_witness :
  (0 <= 7451 # 2)
  /\ Format.formatTime (Format.Finite (7451 # 2)) = "1:02:05"%string.
Proof.
  split; [by vm_compute|].
  exact (proj1 (formatTime_shows_whole_seconds (7451 # 2) ltac:(by vm_compute))).
Defined.

Lemma save_leaves_other_sessions_witness :
  (tracked (Some (Sample.stored 0 3 1000)) < 100)%nat
  /\ load (Sample.sessionId 2)
       (saveHistory Sample.ownKeys (Sample.sessionId 1) 2000 42 1
          (Some (Sample.stored 0 3 1000)))
     = load (Sample.sessionId 2) (Some (Sample.stored 0 3 1000)).
Proof.
  assert (H : (tracked (Some (Sample.stored 0 3 1000)) < 100)%nat)
    by (vm_compute; lia).
  split; [exact H|].
  destruct (save_leaves_other_sessions Sample.ownKeys ownKeys_NoDup ownKeys_own
              (Sample.sessionId 1) 2000 42 1 (Some (Sample.stored 0 3 1000)))
    as (_ & Hfew & _).
  apply Hfew; [exact H | by vm_compute].
Defined.

Lemma handleEnded_moves_to_next_segment_witness :
  c_currentSegmentIndex (capture (initialState None))
    = currentSegmentIndex (initialState None)
  /\ currentSegmentIndex
       (handleEnded Sample.session (capture (initialState None))
          (initialState None)) = 1%Z.
Proof.
  split; [reflexivity|].
  destruct (handleEnded_moves_to_next_segment Sample.session
              (capture (initialState None)) (initialState None))
    as (_ & _ & Hnext & _); [reflexivity | simpl; lia |].
  apply Hnext. simpl. lia.
Defined.

Lemma segment_index_stays_in_range_witness :
  Player.segments Sample.session <> []
  /\ is_Some (currentSegment Sample.session
                (fst (play Sample.ownKeys Sample.session
                        (Sample.resumeAt 600 (Some 1%Z)) 0 2000
                        [Ended 900 3000; Ended 800 4000; Select 0 5 5000;
                         Ready]))).
Proof.
  split; [discriminate|].
  apply (segment_index_stays_in_range Sample.ownKeys Sample.session
           (Sample.resumeAt 600 (Some 1%Z)) 0 2000
           [Ended 900 3000; Ended 800 4000; Select 0 5 5000; Ready]).
  discriminate.
Defined.

Lemma resume_overwrites_stored_position_witness :
  load (id Sample.session) (Sample.resumeAt 600 (Some 2%Z))
    = Some {| time := 600; segmentIndex := Some 2%Z; ts := 1000 |}
  /\ load (id Sample.session)
       (storedHistory
          (fst (opened Sample.ownKeys Sample.session
                  (Sample.resumeAt 600 (Some 2%Z)) 0 2000)))
     = Some {| time := 0; segmentIndex := Some 0%Z; ts := 2000 |}.
Proof.
  split; [reflexivity|].
  apply (resume_overwrites_stored_position Sample.ownKeys Sample.session
           ownKeys_NoDup ownKeys_own (Sample.resumeAt 600 (Some 2%Z))
           {| time := 600; segmentIndex := Some 2%Z; ts := 1000 |}
           2 0 2000).
  - reflexivity.
  - reflexivity.
  - reflexivity.
  - simpl. lia.
  - vm_compute. lia.
Defined.

Lemma seek_then_reopen_witness :
  let m := {| player := setCurrentSegmentIndex 2 (initialState None);
              videoRef := None; volume := 1; isMuted := false |} in
  (base.size (savedSince (id Sample.session) 2000 (storedHistory (player m)))
   < 100)%nat
  /\ currentSegmentIndex
       (loadHistory Sample.session
          (initialState
             (storedHistory
                (player (handleSeek Sample.ownKeys Sample.session 3 2000 m)))))
     = 0%Z
  /\ currentSegmentIndex
       (loadHistory Sample.session
          (initialState
             (storedHistory
                (player (handleSeek Sample.ownKeys Sample.session 30 2000 m)))))
     = 2%Z.
Proof.
  cbv zeta.
  assert (H : (base.size (savedSince (id Sample.session) 2000 None) < 100)%nat)
    by (vm_compute; lia).
  split; [exact H|]. split.
  - destruct (seek_then_reopen Sample.ownKeys Sample.session
                ownKeys_NoDup ownKeys_own 3 2000
                {| player := setCurrentSegmentIndex 2 (initialState None);
                   videoRef := None; volume := 1; isMuted := false |})
      as (_ & _ & _ & _ & Hle); [simpl; lia | exact H |].
    apply Hle. by vm_compute.
  - destruct (seek_then_reopen Sample.ownKeys Sample.session
                ownKeys_NoDup ownKeys_own 30 2000
                {| player := setCurrentSegmentIndex 2 (initialState None);
                   videoRef := None; volume := 1; isMuted := false |})
      as (_ & _ & _ & Hgt & _); [simpl; lia | exact H |].
    apply Hgt. reflexivity.
Defined.

Lemma volume_slider_does_not_unmute_witness :
  let el := {| el_currentTime := 0; el_paused := false;
               el_volume := 1; el_muted := false |} in
  let m := {| player := initialState None; videoRef := Some el;
              volume := 1; isMuted := false |} in
  is_Some (videoRef m)
  /\ isMuted m = false
  /\ ~ (1 # 2) == 0
  /\ isMuted (handleVolumeChange (1 # 2) (toggleMute m)) = false
  /\ forall el', videoRef (handleVolumeChange (1 # 2) (toggleMute m)) = Some el' ->
                 el_muted el' = true /\ audible el' = 0.
Proof.
  cbv zeta. split; [eauto|]. split; [reflexivity|]. split; [discriminate|].
  destruct (volume_slider_does_not_unmute
              {| player := initialState None;
                 videoRef := Some {| el_currentTime := 0; el_paused := false;
                                     el_volume := 1; el_muted := false |};
                 volume := 1; isMuted := false |})
    as (_ & _ & _ & H).
  destruct (H (1 # 2) ltac:(eauto) eq_refl ltac:(discriminate))
    as ((H1 & _ & _ & H2) & _).
  split; [exact H1 | exact H2].
Defined.

Lemma parts_longest_match_witness :
  ["[dog]"; "[dog2]"]%string ≡ₚ ["[dog2]"; "[dog]"]%string
  /\ Emotes.parts ["[dog]"; "[dog2]"]%string "a[dog2]b"
     = Emotes.parts ["[dog2]"; "[dog]"]%string "a[dog2]b".
Proof.
  split; [apply perm_swap|].
  exact (proj1 (parts_longest_match ["[dog]"; "[dog2]"]%string
                  ["[dog2]"; "[dog]"]%string "a[dog2]b"
                  (perm_swap _ _ _))).
Defined.

Lemma pending_seek_goes_to_the_segment_picked_witness :
  load (id Sample.session) (Sample.resumeAt 600 (Some 2%Z))
    = Some {| time := 600; segmentIndex := Some 2%Z; ts := 1000 |}
  /\ currentTime
       (fst (play Sample.ownKeys Sample.session
               (Sample.resumeAt 600 (Some 2%Z)) 0 2000 [Select 1 0 3000]))
     = 600.
Proof.
  split; [reflexivity|].
  destruct (pending_seek_goes_to_the_segment_picked Sample.ownKeys
              Sample.session (Sample.resumeAt 600 (Some 2%Z))
              {| time := 600; segmentIndex := Some 2%Z; ts := 1000 |}
              2 1 0 0 2000 3000) as [(_ & H & _) _];
    [reflexivity | reflexivity | reflexivity | simpl; lia | simpl; lia
    | lia | exact H].
Defined.

End MoreSamples.

(** ** Repeated saves of one session *)

Section RepeatedSaves.
Import History.

Variable Object_keys : HistoryObject -> list string.
Hypothesis Object_keys_NoDup : forall h, NoDup (Object_keys h).
Hypothesis Object_keys_own :
  forall h k, k ∈ Object_keys h <-> is_Some (h !! k).

(** There is room for the session: fewer than 100 sessions are stored,
    or at most 100 with the session among them. *)
Let room (sid : string) (raw : option HistoryObject) : Prop :=
  tracked raw < 100 \/ (is_Some (load sid raw) /\ tracked raw <= 100).

Lemma save_with_room (raw : option HistoryObject) (c : Save) :
  room (s_session c) raw ->
  save Object_keys raw c
  = Some (upsert (s_session c) (s_now c) (s_time c) (s_segmentIdx c) raw)
  /\ room (s_session c) (save Object_keys raw c).
Proof.
  intros Hroom.
  destruct (upsert_size_le (s_session c) (s_now c) (s_time c)
              (s_segmentIdx c) raw) as [Hsz Hsz'].
  assert (Hle : size (upsert (s_session c) (s_now c) (s_time c)
                        (s_segmentIdx c) raw) <= 100).
  { destruct Hroom as [Hlt|[Hin Hle]]; [lia | rewrite Hsz'; done]. }
  assert (E : save Object_keys raw c
              = Some (upsert (s_session c) (s_now c) (s_time c)
                        (s_segmentIdx c) raw)).
  { unfold save, saveHistory.
    by rewrite (cleanup_small Object_keys Object_keys_NoDup Object_keys_own). }
  split; [exact E|]. right. rewrite E. simpl. split; [|exact Hle].
  rewrite upsert_lookup_eq. eauto.
Qed.

(** X20. While there is room for it, repeated saves of one session never
    remove anything, whatever the clock reads: the session is read back
    as its last save and every other session as it was. *)
Theorem repeated_saves_last_write_wins
    (session_id : string) (raw : option HistoryObject)
    (cs : list Save) (c : Save) :
  tracked raw < 100 \/ (is_Some (load session_id raw) /\ tracked raw <= 100) ->
  Forall (fun c' => s_session c' = session_id) (cs ++ [c]) ->
  load session_id (saves Object_keys raw (cs ++ [c])) = Some (recordOf c)
  /\ (forall k, k <> session_id ->
                load k (saves Object_keys raw (cs ++ [c])) = load k raw)
  /\ tracked (saves Object_keys raw (cs ++ [c])) <= 100.
Proof.
  intros Hroom Hall.
  assert (Hinv : forall cs' : list Save,
             Forall (fun c' => s_session c' = session_id) cs' ->
             room session_id (saves Object_keys raw cs')
             /\ forall k, k <> session_id ->
                          load k (saves Object_keys raw cs') = load k raw).
  { induction cs' as [|c' cs' IH] using rev_ind; intros Hcs'.
    - split; [exact Hroom | done].
    - apply Forall_app in Hcs' as [Hcs' Hc'].
      rewrite Forall_singleton in Hc'. unfold room in *.
      destruct (IH Hcs') as [Hr Hother].
      rewrite saves_snoc. rewrite <- Hc' in Hr.
      destruct (save_with_room _ c' Hr) as [E Hr'].
      rewrite Hc' in Hr'. split; [exact Hr'|].
      intros k Hk. rewrite E. simpl.
      rewrite upsert_lookup_ne by congruence.
      rewrite <- load_parsed. by apply Hother. }
  apply Forall_app in Hall as [Hcs Hc]. rewrite Forall_singleton in Hc.
  unfold room in *.
  destruct (Hinv cs Hcs) as [Hr Hother].
  rewrite saves_snoc. rewrite <- Hc in Hr.
  destruct (save_with_room _ c Hr) as [E _].
  pose proof (save_tracked Object_keys Object_keys_NoDup Object_keys_own
                (saves Object_keys raw cs) c) as Hcap.
  split; [|split; [|exact Hcap]]; rewrite E; simpl.
  - rewrite <- Hc. apply upsert_lookup_eq.
  - intros k Hk. rewrite upsert_lookup_ne by congruence.
    rewrite <- load_parsed. by apply Hother.
Qed.

End RepeatedSaves.

Section RepeatedSavesSample.
Import History.

(** Into a full store of 100 sessions, two saves of one of them with
    the clock running backwards: the later call is what is read back. *)
Lemma repeated_saves_last_write_wins_witness :
  (is_Some (load (Sample.sessionId 3) (Some (Sample.stored 0 100 1000)))
   /\ tracked (Some (Sample.stored 0 100 1000)) <= 100)
  /\ load (Sample.sessionId 3)
       (saves Sample.ownKeys (Some (Sample.stored 0 100 1000))
          ([ {| s_session := Sample.sessionId 3; s_now := 900;
                s_time := 10; s_segmentIdx := 0 |} ]
           ++ [ {| s_session := Sample.sessionId 3; s_now := 800;
                   s_time := 20; s_segmentIdx := 1 |} ]))
     = Some {| time := 20; segmentIndex := Some 1%Z; ts := 800 |}.
Proof.
  assert (H : is_Some (load (Sample.sessionId 3)
                         (Some (Sample.stored 0 100 1000)))
              /\ tracked (Some (Sample.stored 0 100 1000)) <= 100).
  { split; [vm_compute; eauto | vm_compute; lia]. }
  split; [exact H|].
  apply (repeated_saves_last_write_wins Sample.ownKeys ownKeys_NoDup
           ownKeys_own (Sample.sessionId 3) (Some (Sample.stored 0 100 1000))).
  - right. exact H.
  - repeat constructor.
Defined.

End RepeatedSavesSample.
